(** * LZ78.py: the Lempel-Ziv (LZ78) entropy-rate estimator

    A shallow embedding of [set_minimum_size], [erLZ78], [coin_ent] and the
    rows [test] builds, together with the parts of Python and of numpy they
    rely on.

    - A sequence is a Python list of ints or a one-dimensional numpy array.
      An array carries its dtype (the one-letter kind the input check
      inspects, and the item size); its items are integer values.  A list
      becomes an array of the dtype numpy finds for it: float64 when it is
      empty, int64 or uint64 when its ints fit.  The algorithm is modelled
      for arrays of boolean, integer and floating dtypes of at most 8 bytes
      and for lists of Python ints that all fit int64, or all need uint64;
      for the other inputs only the input check is.  Lists that hold
      strings and [None] are the subject of the module [Mixed], which
      agrees with the rest on the lists of ints.
    - The phrase buffer is a numpy array whose dtype follows numpy's
      promotion: it starts as an empty int64 array and is reset to
      [array([])], an empty float64 array.  Phrase keys are the bytes of the
      buffer: little-endian two's complement for int64, IEEE 754 binary64
      for float64.
    - The phrase table is a dict in insertion order, with [bytes] keys for
      phrases and the int key [-1] for the end-of-input entry.
    - The estimate is a numpy float.  It is modelled as an extended real:
      rounding and overflow are abstracted, the special values (infinities
      and not-a-number) that [log2] and a division by zero produce are kept.
    - The two module-level bindings [_MINIMUM_SAMPLE_SIZE_] and [InputError]
      are passed explicitly as a record of globals. *)

From Stdlib Require Import ZArith List String Ascii Bool Lia Reals Lra.
From Stdlib Require Import DecimalString DecimalPos DecimalZ Sorted.
Import ListNotations.

Local Open Scope Z_scope.

(** ** Python: results, exceptions, string formatting, dictionaries *)

Inductive exn : Type :=
| ValueError (msg : string).

Inductive outcome (A : Type) : Type :=
| Return (a : A)
| Raise (e : exn).

Arguments Return {A} a.
Arguments Raise {A} e.

Definition bind {A B : Type} (m : outcome A) (f : A -> outcome B) : outcome B :=
  match m with
  | Return a => f a
  | Raise e => Raise e
  end.

Notation "x <- m ;; k" := (bind m (fun x => k))
  (at level 61, m at next level, right associativity).

(** [str(z)] for a Python int. *)
Definition str (z : Z) : string := NilZero.string_of_int (Z.to_int z).

(** [template.format(arg)] for a template with one [{:}] field: the first
    occurrence of the field is replaced by the argument. *)
Fixpoint format (template : string) (arg : string) : string :=
  match template with
  | EmptyString => EmptyString
  | String c rest =>
      if String.prefix "{:}" template
      then String.append arg
             (String.substring 3 (String.length template - 3) template)
      else String c (format rest arg)
  end.

(** A byte string, one [Z] in [0, 256) per byte. *)
Definition bytes : Type := list Z.

(** Keys of the phrase table: the source uses [bytes] objects for phrases and
    the int [-1] for the end-of-input entry. *)
Inductive key : Type :=
| KBytes (b : bytes)
| KInt (z : Z).

Definition bytes_eqb (a b : bytes) : bool :=
  if list_eq_dec Z.eq_dec a b then true else false.

Definition key_eqb (a b : key) : bool :=
  match a, b with
  | KBytes x, KBytes y => bytes_eqb x y
  | KInt x, KInt y => x =? y
  | _, _ => false
  end.

(** A [dict], in insertion order. *)
Definition dict : Type := list (key * Z).

(** [k in d] *)
Definition contains (k : key) (d : dict) : bool :=
  existsb (fun e => key_eqb k (fst e)) d.

(** [d[k] = v]: overwrite in place when the key is present, append otherwise. *)
Fixpoint setitem (d : dict) (k : key) (v : Z) : dict :=
  match d with
  | [] => [(k, v)]
  | (k', v') :: rest =>
      if key_eqb k k' then (k', v) :: rest else (k', v') :: setitem rest k v
  end.

Definition len {A : Type} (l : list A) : Z := Z.of_nat (List.length l).

(** [enumerate(l)] *)
Fixpoint enumerate_from {A : Type} (start : Z) (l : list A) : list (Z * A) :=
  match l with
  | [] => []
  | x :: rest => (start, x) :: enumerate_from (start + 1) rest
  end.

Definition enumerate {A : Type} (l : list A) : list (Z * A) :=
  enumerate_from 0 l.

(** ** numpy *)

Module np.

(** A dtype: its one-letter kind and its item size in bytes. *)
Record dtype_t : Type := mk_dtype { kind : ascii; itemsize : nat }.

Definition int64 : dtype_t := mk_dtype "i" 8.
Definition uint64 : dtype_t := mk_dtype "u" 8.
Definition float64 : dtype_t := mk_dtype "f" 8.
Definition object_ : dtype_t := mk_dtype "O" 8.

(** A one-dimensional array of integer values held in the given dtype. *)
Record ndarray : Type := mk_ndarray { dtype : dtype_t; data : list Z }.

(** [arr.size] *)
Definition size (arr : ndarray) : Z := Z.of_nat (List.length (data arr)).

(** [array([])] has the default dtype, float64; [array([], dtype = int64)]
    is the other empty array the source builds. *)
Definition array_empty (d : dtype_t) : ndarray := mk_ndarray d [].

Definition is_float (d : dtype_t) : bool := Ascii.eqb (kind d) "f".

Definition is_uint64 (d : dtype_t) : bool :=
  Ascii.eqb (kind d) "u" && Nat.leb 8 (itemsize d).

(** [result_type(a, b)] for the dtype [a] of the phrase buffer (int64 or
    float64) and the dtype [b] of a boolean, integer or floating item of at
    most 8 bytes: a float on either side, or an unsigned 64-bit integer
    meeting the signed buffer, gives float64; otherwise the buffer keeps
    its dtype. *)
Definition result_type (a b : dtype_t) : dtype_t :=
  if is_float a || is_float b || is_uint64 b then float64 else a.

(** [append(arr, number)] for a scalar [number] of dtype [d]: the items of
    [arr] followed by [number], in the common dtype. *)
Definition append (arr : ndarray) (d : dtype_t) (number : Z) : ndarray :=
  mk_ndarray (result_type (dtype arr) d) (data arr ++ [number]).

(** [n] little-endian bytes of the word [w]. *)
Fixpoint le_bytes (n : nat) (w : Z) : bytes :=
  match n with
  | O => []
  | S k => (w mod 256) :: le_bytes k (w / 256)
  end.

(** Two's complement image of a signed integer of [n] bytes. *)
Definition int_bits (n : nat) (z : Z) : Z := z mod 256 ^ Z.of_nat n.

(** [m / 2^k] rounded to nearest, ties to even ([0 < k]). *)
Definition round_half_even (m k : Z) : Z :=
  let q := m / 2 ^ k in
  let r := m mod 2 ^ k in
  let half := 2 ^ (k - 1) in
  if r <? half then q
  else if half <? r then q + 1
  else if Z.even q then q else q + 1.

(** IEEE 754 binary64 image of the integer [z] converted to a double:
    sign bit, biased exponent, 52 fraction bits. *)
Definition float64_bits (z : Z) : Z :=
  if z =? 0 then 0
  else
    let s := if z <? 0 then 1 else 0 in
    let m := Z.abs z in
    let e := Z.log2 m in
    let sig := if e <=? 52 then m * 2 ^ (52 - e)
               else round_half_even m (e - 52) in
    s * 2 ^ 63 + (e + 1023) * 2 ^ 52 + (sig - 2 ^ 52).

(** The bytes of one item, for the two dtypes the buffer takes: a double
    for kind [f], a two's complement integer otherwise. *)
Definition item_bytes (d : dtype_t) (z : Z) : bytes :=
  if Ascii.eqb (kind d) "f"
  then le_bytes (itemsize d) (float64_bits z)
  else le_bytes (itemsize d) (int_bits (itemsize d) z).

(** [arr.tobytes()] *)
Definition tobytes (arr : ndarray) : bytes :=
  flat_map (item_bytes (dtype arr)) (data arr).

(** [unique]: the sorted distinct elements. *)
Fixpoint insert_unique (x : Z) (l : list Z) : list Z :=
  match l with
  | [] => [x]
  | y :: rest =>
      if x <? y then x :: l
      else if x =? y then l
      else y :: insert_unique x rest
  end.

Definition unique (l : list Z) : list Z := fold_right insert_unique [] l.

(** A numpy float: a real, an infinity (with its sign) or not-a-number. *)
Inductive float : Type :=
| Finite (x : R)
| Inf (negative : bool)
| NaN.

(** [log2] of a Python int. *)
Definition log2 (n : Z) : float :=
  if n =? 0 then Inf true
  else if n <? 0 then NaN
  else Finite (ln (IZR n) / ln 2).

(** The least integer not below [x]. *)
Definition ceilR (x : R) : Z := 1 - up (- x).

Definition ceil (f : float) : float :=
  match f with
  | Finite x => Finite (IZR (ceilR x))
  | _ => f
  end.

Definition add (a b : float) : float :=
  match a, b with
  | Finite x, Finite y => Finite (x + y)
  | Finite _, Inf s => Inf s
  | Inf s, Finite _ => Inf s
  | Inf s, Inf s' => if Bool.eqb s s' then Inf s else NaN
  | _, _ => NaN
  end.

(** Python int times numpy float. *)
Definition mul_int (n : Z) (f : float) : float :=
  match f with
  | Finite x => Finite (IZR n * x)
  | Inf s => if n =? 0 then NaN else Inf (xorb s (n <? 0))
  | NaN => NaN
  end.

(** numpy float divided by a Python int. *)
Definition div_int (f : float) (n : Z) : float :=
  match f with
  | Finite x =>
      if n =? 0 then
        if Req_dec_T x 0 then NaN
        else if Rlt_dec 0 x then Inf false else Inf true
      else Finite (x / IZR n)
  | Inf s => Inf (xorb s (n <? 0))
  | NaN => NaN
  end.

End np.

(** ** The sequence handed to [erLZ78] *)

Inductive pyseq : Type :=
| PyList (xs : list Z)
| PyArray (a : np.ndarray).

(** A Python int that fits a signed 64-bit integer, and one that only fits an
    unsigned one. *)
Definition in_int64 (z : Z) : bool := (- 2 ^ 63 <=? z) && (z <? 2 ^ 63).
Definition in_uint64_only (z : Z) : bool := (2 ^ 63 <=? z) && (z <? 2 ^ 64).

(** The dtype numpy finds for a list of Python ints: the empty list gives the
    default float64; ints that all fit int64 give int64; ints that all need
    uint64 give uint64; a mix of the two is promoted to float64; an int that
    fits neither makes an array of objects. *)
Definition list_dtype (xs : list Z) : np.dtype_t :=
  match xs with
  | [] => np.float64
  | _ :: _ =>
      if forallb in_int64 xs then np.int64
      else if forallb in_uint64_only xs then np.uint64
      else if forallb (fun z => in_int64 z || in_uint64_only z) xs
           then np.float64
           else np.object_
  end.

(** [array(sequence)]: a list of ints becomes an array of the dtype numpy
    finds for it, an array keeps its dtype.  The items are kept as they are:
    the rounding of a list promoted to float64 is not modelled, nor are the
    items of an array of objects (both are rejected by the input check). *)
Definition array (sequence : pyseq) : np.ndarray :=
  match sequence with
  | PyList xs => np.mk_ndarray (list_dtype xs) xs
  | PyArray a => a
  end.

(** The elements iteration yields. *)
Definition items (sequence : pyseq) : list Z :=
  match sequence with
  | PyList xs => xs
  | PyArray a => np.data a
  end.

(** The dtype a Python int has when [append] turns it into an array. *)
Definition scalar_dtype (z : Z) : np.dtype_t :=
  if in_int64 z then np.int64
  else if in_uint64_only z then np.uint64
  else np.object_.

(** The dtype of the scalars iteration yields.  An item of an array has the
    dtype of the array.  The items of a list are Python ints and enter numpy
    one by one; the loop only depends on the dtype of the first of them,
    which alone meets the int64 buffer: every later item is appended to a
    buffer that is float64 already, and stays so for ints of either 64-bit
    range. *)
Definition item_dtype (sequence : pyseq) : np.dtype_t :=
  match sequence with
  | PyList [] => np.int64
  | PyList (x :: _) => scalar_dtype x
  | PyArray a => np.dtype a
  end.

(** [len(sequence)] *)
Definition len_seq (sequence : pyseq) : Z := len (items sequence).

(** What [erLZ78] returns: the int [0] of the two shortcuts, or a float. *)
Inductive pyval : Type :=
| PyInt (z : Z)
| PyFloat (f : np.float).

(** ** Module globals *)

Definition _INPUT_ERROR_TEMPLATE_ : string :=
  "Sample size is below minimum ({:} outcomes). Minimal sample size can be set, at your own risk, via LZ78.set_minimum_size(new_size). Keep in mind that the accuracy of the estimate grows with the sample size.".

Definition _UNSUPPORTED_KINDS_ : list ascii :=
  ["f"; "c"; "V"; "O"]%char.

Definition _UNSUPPORTED_KIND_TEMPLATE_ : string :=
  "The provided data kind ({:}) is not guaranteed to produce sensible output. If you intend to run the algorithm on the data nonetheless, override the input check. For more information on data kind, please refer to the numpy.dtype.kind documentation.".

(** The two mutable module-level bindings. *)
Record globals : Type := mk_globals {
  _MINIMUM_SAMPLE_SIZE_ : Z;
  InputError : exn
}.

Definition set_minimum_size (new_size : Z) (g : globals) : globals :=
  let g := mk_globals new_size (InputError g) in
  mk_globals (_MINIMUM_SAMPLE_SIZE_ g)
    (ValueError (format _INPUT_ERROR_TEMPLATE_ (str (_MINIMUM_SAMPLE_SIZE_ g)))).

(** The state after import: [_MINIMUM_SAMPLE_SIZE_ = 5] followed by
    [set_minimum_size(_MINIMUM_SAMPLE_SIZE_)]. *)
Definition module_globals : globals :=
  set_minimum_size 5 (mk_globals 5 (ValueError EmptyString)).

(** ** erLZ78 *)

Definition in_kinds (k : ascii) (l : list ascii) : bool :=
  existsb (Ascii.eqb k) l.

(** Lines 64-70: the input handling. *)
Definition input_handling (g : globals) (sequence : pyseq)
  (override_input_check : bool) : outcome pyseq :=
  if negb override_input_check then
    let sequence := array sequence in
    if in_kinds (np.kind (np.dtype sequence)) _UNSUPPORTED_KINDS_ then
      Raise (ValueError (format _UNSUPPORTED_KIND_TEMPLATE_
                           (String (np.kind (np.dtype sequence)) EmptyString)))
    else if np.size sequence <? _MINIMUM_SAMPLE_SIZE_ g then
      Raise (InputError g)
    else Return (PyArray sequence)
  else Return sequence.

(** The variables the loop updates. *)
Record loop_state : Type := mk_state {
  table : dict;
  current_seq : np.ndarray
}.

Inductive control : Type :=
| Next (s : loop_state)
| Break (s : loop_state).

(** Lines 85-99: one iteration of the [for] loop. *)
Definition loop_body (item : np.dtype_t) (sequence_len : Z) (s : loop_state)
  (idx number : Z) : control :=
  let current_seq := np.append (current_seq s) item number in
  if contains (KBytes (np.tobytes current_seq)) (table s) then
    if idx =? sequence_len - 1 then
      Break (mk_state (setitem (table s) (KInt (-1)) (-1)) current_seq)
    else
      Next (mk_state (table s) current_seq)
  else
    Next (mk_state
            (setitem (table s) (KBytes (np.tobytes current_seq)) (len (table s)))
            (np.array_empty np.float64)).

(** Line 84: the loop over [enumerate(sequence)]. *)
Fixpoint for_loop (item : np.dtype_t) (sequence_len : Z) (its : list (Z * Z))
  (s : loop_state) : loop_state :=
  match its with
  | [] => s
  | (idx, number) :: rest =>
      match loop_body item sequence_len s idx number with
      | Next s' => for_loop item sequence_len rest s'
      | Break s' => s'
      end
  end.

(** Lines 76-77: the seeded table and the empty int64 buffer. *)
Definition initial_state : loop_state :=
  mk_state [(KBytes (np.tobytes (np.array_empty np.float64)), 0)]
           (np.array_empty np.int64).

(** The table when the loop is left. *)
Definition final_table (sequence : pyseq) : dict :=
  table (for_loop (item_dtype sequence) (len_seq sequence)
           (enumerate (items sequence)) initial_state).

(** The outcome of every iteration the loop runs, in order. *)
Fixpoint loop_trace (item : np.dtype_t) (sequence_len : Z)
  (its : list (Z * Z)) (s : loop_state) : list control :=
  match its with
  | [] => []
  | (idx, number) :: rest =>
      match loop_body item sequence_len s idx number with
      | Next s' => Next s' :: loop_trace item sequence_len rest s'
      | Break s' => [Break s']
      end
  end.

Definition state_of (c : control) : loop_state :=
  match c with
  | Next s => s
  | Break s => s
  end.

(** Lines 73-100: the algorithm after the input handling. *)
Definition estimate (sequence : pyseq) : pyval :=
  if len_seq sequence =? 1 then PyInt 0
  else
    let alpha_size := np.unique (np.data (array sequence)) in
    if len alpha_size =? 1 then PyInt 0
    else
      let adl := np.ceil (np.log2 (len alpha_size)) in
      let table := final_table sequence in
      PyFloat (np.div_int
                 (np.mul_int (len table) (np.add (np.log2 (len table)) adl))
                 (len_seq sequence)).

Definition erLZ78 (g : globals) (sequence : pyseq)
  (override_input_check : bool) : outcome pyval :=
  sequence <- input_handling g sequence override_input_check ;;
  Return (estimate sequence).

(** ** Vocabulary of the specification *)

(** Alphabet: the distinct symbols occurring anywhere in the sequence. *)
Definition alphabet (l : list Z) : list Z := nodup Z.eq_dec l.

Definition alphabet_size (l : list Z) : Z := len (alphabet l).

(** LZ78 parsing as the specification words it (section 4.1), with the
    phrase table keyed by the phrases themselves: the buffer grows by one
    symbol at a time; a buffer that is a known phrase is extended, a new one
    is recorded and the buffer is reset.  The result is the list of distinct
    phrases in order of appearance and the buffer left at the end of the
    input (not empty when the input ends on an already-seen phrase). *)
Definition phrase_eqb (p q : list Z) : bool :=
  if list_eq_dec Z.eq_dec p q then true else false.

Fixpoint lz78_parse (phrases : list (list Z)) (buffer : list Z) (l : list Z)
  : list (list Z) * list Z :=
  match l with
  | [] => (phrases, buffer)
  | x :: rest =>
      let buffer := buffer ++ [x] in
      if existsb (phrase_eqb buffer) phrases
      then lz78_parse phrases buffer rest
      else lz78_parse (phrases ++ [buffer]) [] rest
  end.

Definition lz78_phrases (l : list Z) : list (list Z) :=
  fst (lz78_parse [] [] l).

Definition trailing_repeat (l : list Z) : bool :=
  match snd (lz78_parse [] [] l) with
  | [] => false
  | _ :: _ => true
  end.

(** The phrase count the specification expects: the seed entry, the [k]
    distinct phrases, and one more entry when the input ends on a repeat. *)
Definition expected_phrase_count (l : list Z) : Z :=
  len (lz78_phrases l) + 1 + (if trailing_repeat l then 1 else 0).

(** The input check does not stand in the way: it is overridden, or the
    array's kind is supported and its size reaches the minimum. *)
Definition validated (g : globals) (sequence : pyseq)
  (override_input_check : bool) : Prop :=
  override_input_check = true \/
  (in_kinds (np.kind (np.dtype (array sequence))) _UNSUPPORTED_KINDS_ = false /\
   _MINIMUM_SAMPLE_SIZE_ g <= np.size (array sequence)).


(** ** Predicates on the loop and on byte images *)

(** Keys are unique, the seed entry maps the empty phrase to 0, and a phrase
    stored at position [i] of the insertion order has the value [i]. *)
Definition table_invariant (t : dict) : Prop :=
  NoDup (map fst t) /\
  nth_error t 0 = Some (KBytes [], 0) /\
  forall i b v, nth_error t i = Some (KBytes b, v) -> v = Z.of_nat i.

Definition phrases_only (t : dict) : Prop :=
  Forall (fun e => exists b, fst e = KBytes b) t.

(** What one iteration may do to the table [t]: leave it alone, add a phrase
    that is not yet a key under the index [len t], or (on leaving the loop)
    add the end-of-input entry. *)
Definition table_step (t : dict) (c : control) : Prop :=
  match c with
  | Next s' =>
      table s' = t \/
      exists b, contains (KBytes b) t = false /\
                table s' = t ++ [(KBytes b, len t)]
  | Break s' => table s' = t ++ [(KInt (-1), -1)]
  end.

Fixpoint table_steps (t : dict) (tr : list control) : Prop :=
  match tr with
  | [] => True
  | c :: tr' => table_step t c /\ table_steps (table (state_of c)) tr'
  end.

(** Integers a double holds exactly. *)
Definition float_exact (z : Z) : Prop := - 2 ^ 53 <= z <= 2 ^ 53.

(** The key of a phrase held in a float64 buffer. *)
Definition enc (p : list Z) : bytes :=
  np.tobytes (np.mk_ndarray np.float64 p).

Definition phrase_keys (phrases : list (list Z)) : list key :=
  map (fun p => KBytes (enc p)) phrases.

(** Keys that no lookup of the loop can hit once the buffer is float64:
    they are neither the end-of-input key nor the float64 key of a non-empty
    phrase of exact integers. *)
Definition foreign_keys (others : list key) : Prop :=
  ~ In (KInt (-1)) others /\
  forall p, p <> [] -> Forall float_exact p -> ~ In (KBytes (enc p)) others.

(** The loop state [s] stands for the parser state [(phrases, buffer)]: the
    table holds the foreign keys followed by the keys of the phrases, and
    the buffer is a float64 array with the same items. *)
Definition simulates (others : list key) (s : loop_state)
  (phrases : list (list Z)) (buffer : list Z) : Prop :=
  map fst (table s) = others ++ phrase_keys phrases /\
  current_seq s = np.mk_ndarray np.float64 buffer /\
  Forall (Forall float_exact) phrases /\
  Forall float_exact buffer.

(** What a buffer left at the end of the input adds to the phrase count. *)
Definition pending (buffer : list Z) : Z :=
  match buffer with
  | [] => 0
  | _ :: _ => 1
  end.

(** The closed form of line 100, for a phrase count [c], an alphabet size
    [a] and a length [n]. *)
Definition formula (c a n : Z) : R :=
  (IZR c * (ln (IZR c) / ln 2 + IZR (np.ceilR (ln (IZR a) / ln 2))) / IZR n)%R.

(** The ten-item sequence 0,1,0,1,... of the specification's examples. *)
Definition alternating : pyseq := PyList [0; 1; 0; 1; 0; 1; 0; 1; 0; 1].

(** ** The state the loop is left in, and measures on it *)

(** The variables [table] and [current_seq] when the loop is left. *)
Definition final_state (sequence : pyseq) : loop_state :=
  for_loop (item_dtype sequence) (len_seq sequence)
    (enumerate (items sequence)) initial_state.

(** The number of bytes of a key: [len(k)] for a [bytes] key, nothing for
    the int key of the end-of-input entry. *)
Definition key_weight (k : key) : Z :=
  match k with
  | KBytes b => len b
  | KInt _ => 0
  end.

(** The bytes held by the keys of a table. *)
Definition key_bytes (t : dict) : Z :=
  fold_right (fun e acc => key_weight (fst e) + acc) 0 t.

(** The key the end of the input adds for a pending buffer. *)
Definition eoi_keys (buffer : list Z) : list key :=
  match buffer with
  | [] => []
  | _ :: _ => [KInt (-1)]
  end.

(** ** The testing functions *)

(** numpy's [log2] of a Python float. *)
Definition log2_of_float (x : R) : np.float :=
  if Req_dec_T x 0 then np.Inf true
  else if Rlt_dec x 0 then np.NaN
  else np.Finite (ln x / ln 2).

(** Python float times numpy float. *)
Definition float_times (x : R) (f : np.float) : np.float :=
  match f with
  | np.Finite y => np.Finite (x * y)
  | np.Inf s =>
      if Req_dec_T x 0 then np.NaN
      else np.Inf (xorb s (if Rlt_dec x 0 then true else false))
  | np.NaN => np.NaN
  end.

(** Line 105: the entropy of a coin toss with probabilities (x, 1-x); the
    int 0 when [x] is 0 or 1.  The floats are read as reals: what is proved
    of it below (sign, special values) does not depend on the rounding of
    the doubles. *)
Definition coin_ent (x : R) : pyval :=
  if Req_dec_T x 0 then PyInt 0
  else if Req_dec_T x 1 then PyInt 0
  else PyFloat (np.add (float_times (- x) (log2_of_float x))
                       (float_times (x - 1) (log2_of_float (1 - x)))).

(** Line 112: one row of the battery, [[1 if n < p*resolution else 0 for n
    in tst]], from the uniform draws [tst] of line 111. *)
Definition battery_row (p : Z) (resolution : R) (tst : list R) : list Z :=
  map (fun n => if Rlt_dec n (IZR p * resolution) then 1 else 0) tst.

(** Lines 112 and 114: the entropy rates [test] plots, from the draws. *)
Definition entropy_rates (g : globals) (resolution : R)
  (battery : list (list R)) : list (outcome pyval) :=
  map (fun pt => erLZ78 g (PyList (battery_row (fst pt) resolution (snd pt)))
                   true)
      (enumerate battery).

(** The bytes of the keys and of the buffer account for the items consumed
    so far, 8 bytes apiece. *)
Definition budget (idx : Z) (s : loop_state) : Prop :=
  np.itemsize (np.dtype (current_seq s)) = 8%nat /\
  key_bytes (table s) + 8 * len (np.data (current_seq s)) = 8 * idx.

(** The items the byte encodings are modelled for: the Python ints of a
    list, of either 64-bit range, and the items of an array of booleans,
    integers or floats of at most 8 bytes. *)
Definition numeric_dtype (d : np.dtype_t) : bool :=
  in_kinds (np.kind d) ["b"; "i"; "u"; "f"]%char && Nat.leb (np.itemsize d) 8.

Definition numeric_items (sequence : pyseq) : bool :=
  match sequence with
  | PyList xs => forallb (fun z => in_int64 z || in_uint64_only z) xs
  | PyArray a => numeric_dtype (np.dtype a)
  end.

(** The entropy, in bits, of a coin with probabilities (x, 1-x), as line 105
    writes it. *)
Definition binary_entropy (x : R) : R :=
  (- x * (ln x / ln 2) + (x - 1) * (ln (1 - x) / ln 2))%R.

(** ** Lists of ints, strings and None

    [erLZ78] accepts any Python list.  The definitions above cover the
    lists of ints; the module below covers the lists that also hold strings
    and [None], the arrays such lists are cast to, and the one exception the
    code after the input handling can raise on them: the [TypeError] of
    [unique], which sorts its argument, on objects that have no order.
    The ints are of the signed 64-bit range, and of magnitude at most
    [2 ^ 53] where a float64 buffer that holds them is cast to strings; the
    strings are made of the characters below code point 256, and do not end
    with the NUL character. *)

(** [str(e)], the message of an exception. *)
Definition message (e : exn) : string :=
  match e with
  | ValueError msg => msg
  end.

Module Mixed.

(** The exceptions met here: [ValueError] with its message, and [TypeError]
    (its message is not modelled). *)
Inductive exn : Type :=
| ValueError (msg : string)
| TypeError.

Inductive outcome (A : Type) : Type :=
| Return (a : A)
| Raise (e : exn).

Arguments Return {A} a.
Arguments Raise {A} e.

Definition bind {A B : Type} (m : outcome A) (f : A -> outcome B) : outcome B :=
  match m with
  | Return a => f a
  | Raise e => Raise e
  end.

(** An item of a list. *)
Inductive pyobj : Type :=
| PInt (z : Z)
| PStr (s : string)
| PNone.

Definition pyobj_eq_dec (a b : pyobj) : {a = b} + {a <> b}.
Proof. decide equality; [apply Z.eq_dec | apply string_dec]. Defined.

Definition is_int (o : pyobj) : bool :=
  match o with
  | PInt _ => true
  | _ => false
  end.

Definition is_str (o : pyobj) : bool :=
  match o with
  | PStr _ => true
  | _ => false
  end.

(** The dtypes met: int64, float64, the strings of at most [n] characters
    ([<U n]) and the Python objects. *)
Inductive dtype_t : Type :=
| int64
| float64
| unicode (n : nat)
| object_.

Definition kind (d : dtype_t) : ascii :=
  match d with
  | int64 => "i"
  | float64 => "f"
  | unicode _ => "U"
  | object_ => "O"
  end.

(** A one-dimensional array: ints in an int64 array, integer-valued floats
    (given by their value) in a float64 array, strings in a unicode array,
    any object in an array of objects. *)
Record ndarray : Type := mk_ndarray { dtype : dtype_t; data : list pyobj }.

Definition size (arr : ndarray) : Z := len (data arr).

Inductive pyseq : Type :=
| PyList (l : list pyobj)
| PyArray (a : ndarray).

(** The dtype of the array numpy makes of one object: a string of [n]
    characters has the dtype [<U n], and [<U 1] when it is empty. *)
Definition width (s : string) : nat := Nat.max 1 (String.length s).

Definition scalar_dtype (o : pyobj) : dtype_t :=
  match o with
  | PInt _ => int64
  | PStr s => unicode (width s)
  | PNone => object_
  end.

(** [result_type(a, b)]: objects absorb everything; a string meeting an
    int64 needs at least the 21 characters of an int, meeting a float64 the
    32 of a float; a float64 absorbs an int64. *)
Definition result_type (a b : dtype_t) : dtype_t :=
  match a, b with
  | object_, _ | _, object_ => object_
  | unicode n, unicode m => unicode (Nat.max n m)
  | unicode n, int64 | int64, unicode n => unicode (Nat.max n 21)
  | unicode n, float64 | float64, unicode n => unicode (Nat.max n 32)
  | float64, _ | _, float64 => float64
  | int64, int64 => int64
  end.

(** An item of dtype [from] as it reads in an array of dtype [to]: numbers
    turn into their decimal writing in an array of strings, an
    integer-valued float with its [.0]. *)
Definition cast (from to : dtype_t) (o : pyobj) : pyobj :=
  match to, o with
  | unicode _, PInt z =>
      PStr (match from with
            | float64 => str z ++ ".0"
            | _ => str z
            end)
  | _, _ => o
  end.

(** The dtype numpy finds for a list: float64, the default, when it is
    empty, otherwise the common dtype of its items. *)
Definition list_dtype (l : list pyobj) : dtype_t :=
  match l with
  | [] => float64
  | o :: rest => fold_left result_type (map scalar_dtype rest) (scalar_dtype o)
  end.

(** [array(sequence)] *)
Definition array (sequence : pyseq) : ndarray :=
  match sequence with
  | PyList l =>
      mk_ndarray (list_dtype l)
        (map (fun o => cast (scalar_dtype o) (list_dtype l) o) l)
  | PyArray a => a
  end.

(** [len(sequence)] *)
Definition len_seq (sequence : pyseq) : Z :=
  match sequence with
  | PyList l => len l
  | PyArray a => len (data a)
  end.

(** The scalars iteration yields, each with the dtype [append] finds for it:
    the items of a list and of an array of objects are Python objects; an
    item of an array of strings is a string with its own width; an item of
    an int64 or float64 array has the dtype of the array. *)
Definition item_dtype (d : dtype_t) (o : pyobj) : dtype_t :=
  match d with
  | unicode _ | object_ => scalar_dtype o
  | _ => d
  end.

Definition scalars (sequence : pyseq) : list (dtype_t * pyobj) :=
  match sequence with
  | PyList l => map (fun o => (scalar_dtype o, o)) l
  | PyArray a => map (fun o => (item_dtype (dtype a) o, o)) (data a)
  end.

(** [append(arr, number)]: the items of [arr] followed by [number], all in
    the common dtype. *)
Definition append (arr : ndarray) (number : dtype_t * pyobj) : ndarray :=
  let d := result_type (dtype arr) (fst number) in
  mk_ndarray d
    (map (cast (dtype arr) d) (data arr) ++ [cast (fst number) d (snd number)]).

(** The bytes of a string in an array of dtype [<U n]: four little-endian
    bytes for each character, padded with zeros to [4 * n] bytes. *)
Definition utf32 (n : nat) (s : string) : bytes :=
  firstn (4 * n)
    (flat_map (fun c => [Z.of_N (N_of_ascii c); 0; 0; 0])
       (list_ascii_of_string s) ++ repeat 0 (4 * n)%nat).

(** The bytes of one item.  The bytes of an array of objects are the
    addresses of the objects; they are not modelled, and no buffer of that
    dtype is turned into bytes: it takes an item that is no int and no
    string, and [unique] raises on a sequence that holds one. *)
Definition item_bytes (d : dtype_t) (o : pyobj) : bytes :=
  match d, o with
  | int64, PInt z => np.item_bytes np.int64 z
  | float64, PInt z => np.item_bytes np.float64 z
  | unicode n, PStr s => utf32 n s
  | _, _ => []
  end.

(** [arr.tobytes()] *)
Definition tobytes (arr : ndarray) : bytes :=
  flat_map (item_bytes (dtype arr)) (data arr).

(** [unique] sorts the items: on two items or more it compares them, and
    raises [TypeError] unless they are all ints or all strings.  Only the
    number of the items it returns is used, so their order is left out. *)
Definition orderable (l : list pyobj) : bool :=
  forallb is_int l || forallb is_str l.

Definition unique (ar : ndarray) : outcome (list pyobj) :=
  if (1 <? len (data ar)) && negb (orderable (data ar)) then Raise TypeError
  else Return (nodup pyobj_eq_dec (data ar)).

(** Lines 64-70: the input handling. *)
Definition input_handling (g : globals) (sequence : pyseq)
  (override_input_check : bool) : outcome pyseq :=
  if negb override_input_check then
    let sequence := array sequence in
    if in_kinds (kind (dtype sequence)) _UNSUPPORTED_KINDS_ then
      Raise (ValueError (format _UNSUPPORTED_KIND_TEMPLATE_
                           (String (kind (dtype sequence)) EmptyString)))
    else if size sequence <? _MINIMUM_SAMPLE_SIZE_ g then
      Raise (ValueError (message (InputError g)))
    else Return (PyArray sequence)
  else Return sequence.

Record loop_state : Type := mk_state {
  table : dict;
  current_seq : ndarray
}.

Inductive control : Type :=
| Next (s : loop_state)
| Break (s : loop_state).

(** Lines 85-99: one iteration of the [for] loop. *)
Definition loop_body (sequence_len : Z) (s : loop_state) (idx : Z)
  (number : dtype_t * pyobj) : control :=
  let current_seq := append (current_seq s) number in
  if contains (KBytes (tobytes current_seq)) (table s) then
    if idx =? sequence_len - 1 then
      Break (mk_state (setitem (table s) (KInt (-1)) (-1)) current_seq)
    else
      Next (mk_state (table s) current_seq)
  else
    Next (mk_state
            (setitem (table s) (KBytes (tobytes current_seq)) (len (table s)))
            (mk_ndarray float64 [])).

(** Line 84: the loop over [enumerate(sequence)]. *)
Fixpoint for_loop (sequence_len : Z) (its : list (Z * (dtype_t * pyobj)))
  (s : loop_state) : loop_state :=
  match its with
  | [] => s
  | (idx, number) :: rest =>
      match loop_body sequence_len s idx number with
      | Next s' => for_loop sequence_len rest s'
      | Break s' => s'
      end
  end.

(** Lines 76-77: the seeded table and the empty int64 buffer. *)
Definition initial_state : loop_state :=
  mk_state [(KBytes (tobytes (mk_ndarray float64 [])), 0)]
           (mk_ndarray int64 []).

(** The table when the loop is left. *)
Definition final_table (sequence : pyseq) : dict :=
  table (for_loop (len_seq sequence) (enumerate (scalars sequence))
           initial_state).

(** Lines 73-100: the algorithm after the input handling. *)
Definition estimate (sequence : pyseq) : outcome pyval :=
  if len_seq sequence =? 1 then Return (PyInt 0)
  else
    bind (unique (array sequence)) (fun alpha_size =>
    if len alpha_size =? 1 then Return (PyInt 0)
    else
      let adl := np.ceil (np.log2 (len alpha_size)) in
      let table := final_table sequence in
      Return (PyFloat
                (np.div_int
                   (np.mul_int (len table) (np.add (np.log2 (len table)) adl))
                   (len_seq sequence)))).

Definition erLZ78 (g : globals) (sequence : pyseq)
  (override_input_check : bool) : outcome pyval :=
  bind (input_handling g sequence override_input_check) estimate.

(** numpy reads a string back without the NUL characters at its end. *)
Fixpoint ends_with_nul (s : string) : bool :=
  match s with
  | EmptyString => false
  | String c EmptyString => Ascii.eqb c zero
  | String _ rest => ends_with_nul rest
  end.

(** The objects an array gives back as they were put in: an int of the
    signed 64-bit range, a string that does not end with NUL. *)
Definition in_range (o : pyobj) : bool :=
  match o with
  | PInt z => in_int64 z
  | PStr s => negb (ends_with_nul s)
  | PNone => true
  end.

(** The sequences of ints and strings: the lists that hold nothing else,
    and the arrays of ints, of floats and of strings. *)
Definition plain (sequence : pyseq) : bool :=
  match sequence with
  | PyList l => forallb (fun o => (is_int o || is_str o) && in_range o) l
  | PyArray a =>
      match dtype a with
      | int64 | float64 => forallb (fun o => is_int o && in_range o) (data a)
      | unicode _ => forallb is_str (data a)
      | object_ => false
      end
  end.

(** The sequences whose items are all of one type: the lists of ints, the
    lists of strings, and the arrays. *)
Definition uniform (sequence : pyseq) : bool :=
  match sequence with
  | PyList l => orderable l && forallb in_range l
  | PyArray _ => true
  end.

(** The list [['2', 1, '1', 1, 1, '1']], and the list [[None, 1]]. *)
Definition digits : pyseq :=
  PyList [PStr "2"; PInt 1; PStr "1"; PInt 1; PInt 1; PStr "1"].

Definition none_and_one : pyseq := PyList [PNone; PInt 1].

End Mixed.

(** ** The lists of ints among the lists of objects

    A list of ints of the signed 64-bit range, and an int64 or float64
    array, read as sequences of the module [Mixed]. *)

Definition mixed_dtype (d : np.dtype_t) : Mixed.dtype_t :=
  if np.is_float d then Mixed.float64 else Mixed.int64.

Definition mixed_array (a : np.ndarray) : Mixed.ndarray :=
  Mixed.mk_ndarray (mixed_dtype (np.dtype a)) (map Mixed.PInt (np.data a)).

Definition mixed_of (sequence : pyseq) : Mixed.pyseq :=
  match sequence with
  | PyList xs => Mixed.PyList (map Mixed.PInt xs)
  | PyArray a => Mixed.PyArray (mixed_array a)
  end.

Definition mixed_outcome {A : Type} (m : outcome A) : Mixed.outcome A :=
  match m with
  | Return a => Mixed.Return a
  | Raise e => Mixed.Raise (Mixed.ValueError (message e))
  end.

Definition int64_or_float64 (d : np.dtype_t) : Prop :=
  d = np.int64 \/ d = np.float64.

Definition embeddable (sequence : pyseq) : Prop :=
  match sequence with
  | PyList xs => forallb in_int64 xs = true
  | PyArray a => int64_or_float64 (np.dtype a)
  end.

(** The two loops in step: the same table, the same buffer. *)
Definition agree (ms : Mixed.loop_state) (s : loop_state) : Prop :=
  Mixed.table ms = table s /\
  Mixed.current_seq ms = mixed_array (current_seq s) /\
  int64_or_float64 (np.dtype (current_seq s)).

(** * Lemmas *)

(** ** Basic facts *)

Lemma items_array (sequence : pyseq) :
  np.data (array sequence) = items sequence.
Proof. destruct sequence; reflexivity. Qed.

Lemma size_array (sequence : pyseq) :
  np.size (array sequence) = len_seq sequence.
Proof. unfold np.size, len_seq, len. now rewrite items_array. Qed.

Lemma list_dtype_supported (x : Z) (xs : list Z) :
  in_kinds (np.kind (list_dtype (x :: xs))) _UNSUPPORTED_KINDS_ = false ->
  list_dtype (x :: xs) = scalar_dtype x.
Proof.
  unfold list_dtype, scalar_dtype. cbn [forallb].
  destruct (in_int64 x) eqn:Hi; cbn [andb orb].
  - destruct (forallb in_int64 xs); [reflexivity |].
    assert (Hu : in_uint64_only x = false)
      by (unfold in_int64, in_uint64_only in *; lia).
    rewrite Hu. cbn [andb].
    destruct (forallb _ xs); discriminate.
  - destruct (in_uint64_only x); cbn [andb]; [| discriminate].
    destruct (forallb in_uint64_only xs); [reflexivity |].
    destruct (forallb _ xs); discriminate.
Qed.

Lemma item_dtype_array (sequence : pyseq) :
  in_kinds (np.kind (np.dtype (array sequence))) _UNSUPPORTED_KINDS_ = false ->
  np.dtype (array sequence) = item_dtype sequence.
Proof.
  destruct sequence as [[| x xs] | a]; cbn [array np.dtype item_dtype].
  - discriminate.
  - apply list_dtype_supported.
  - reflexivity.
Qed.

Lemma estimate_array (sequence : pyseq) :
  in_kinds (np.kind (np.dtype (array sequence))) _UNSUPPORTED_KINDS_ = false ->
  estimate (PyArray (array sequence)) = estimate sequence.
Proof.
  intros Hk. unfold estimate, final_table, len_seq.
  cbn [items]. rewrite !items_array.
  change (item_dtype (PyArray (array sequence)))
    with (np.dtype (array sequence)).
  rewrite (item_dtype_array _ Hk).
  change (items (PyArray (array sequence))) with (np.data (array sequence)).
  now rewrite !items_array.
Qed.

Lemma input_handling_override (g : globals) (sequence : pyseq) :
  input_handling g sequence true = Return sequence.
Proof. reflexivity. Qed.

Lemma input_handling_checked (g : globals) (sequence : pyseq) :
  input_handling g sequence false =
    if in_kinds (np.kind (np.dtype (array sequence))) _UNSUPPORTED_KINDS_
    then Raise (ValueError (format _UNSUPPORTED_KIND_TEMPLATE_
                  (String (np.kind (np.dtype (array sequence))) EmptyString)))
    else if np.size (array sequence) <? _MINIMUM_SAMPLE_SIZE_ g
         then Raise (InputError g)
         else Return (PyArray (array sequence)).
Proof. reflexivity. Qed.

Lemma erLZ78_validated (g : globals) (sequence : pyseq) (override : bool) :
  validated g sequence override ->
  erLZ78 g sequence override = Return (estimate sequence).
Proof.
  intros [-> | [Hkind Hsize]]; [reflexivity |].
  destruct override; [reflexivity |].
  unfold erLZ78. rewrite input_handling_checked, Hkind.
  apply Z.ltb_ge in Hsize. rewrite Hsize. cbn [bind].
  now rewrite estimate_array.
Qed.

(** On a list of ints and on an array that pass the input check, the check
    and its cast leave the result as it is. *)
Lemma erLZ78_checked_as_overridden (g : globals) (sequence : pyseq) :
  in_kinds (np.kind (np.dtype (array sequence))) _UNSUPPORTED_KINDS_ = false ->
  _MINIMUM_SAMPLE_SIZE_ g <= np.size (array sequence) ->
  erLZ78 g sequence false = erLZ78 g sequence true.
Proof.
  intros Hkind Hsize.
  rewrite !erLZ78_validated; [reflexivity | now left | right; now split].
Qed.

Lemma erLZ78_raises_iff (g : globals) (sequence : pyseq) (override : bool) :
  (exists e, erLZ78 g sequence override = Raise e) <->
  override = false /\
  (np.size (array sequence) < _MINIMUM_SAMPLE_SIZE_ g \/
   in_kinds (np.kind (np.dtype (array sequence))) _UNSUPPORTED_KINDS_ = true).
Proof.
  destruct override.
  - split; [intros [e He]; discriminate | intros [Hf _]; discriminate].
  - unfold erLZ78. rewrite input_handling_checked.
    destruct (in_kinds _ _) eqn:Hk.
    + split; [intros _; auto | intros _; eexists; reflexivity].
    + destruct (Z.ltb_spec (np.size (array sequence)) (_MINIMUM_SAMPLE_SIZE_ g)).
      * split; [intros _; auto | intros _; eexists; reflexivity].
      * split; [intros [e He]; discriminate |].
        intros [_ [Hlt | Hd]]; [lia | discriminate].
Qed.

(** ** [unique] computes the alphabet *)

Section Unique.

Lemma insert_unique_In (x y : Z) (l : list Z) :
  In y (np.insert_unique x l) <-> y = x \/ In y l.
Proof.
  induction l as [| z l IH]; cbn [np.insert_unique].
  - cbn. intuition.
  - destruct (Z.ltb_spec x z); [cbn; intuition |].
    destruct (Z.eqb_spec x z) as [-> | Hne]; cbn in *; intuition.
Qed.

Lemma insert_unique_sorted (x : Z) (l : list Z) :
  StronglySorted Z.lt l -> StronglySorted Z.lt (np.insert_unique x l).
Proof.
  induction 1 as [| z l Hs IH Hall]; cbn [np.insert_unique].
  - repeat constructor.
  - destruct (Z.ltb_spec x z) as [Hlt | Hge].
    + constructor; [now constructor |].
      constructor; [exact Hlt |].
      eapply Forall_impl; [| exact Hall]. intros a Ha. cbn in Ha. lia.
    + destruct (Z.eqb_spec x z) as [-> | Hne]; [now constructor |].
      constructor; [exact IH |].
      apply Forall_forall. intros a Ha.
      apply insert_unique_In in Ha as [-> | Ha]; [lia |].
      rewrite Forall_forall in Hall. now apply Hall.
Qed.

Lemma unique_In (x : Z) (l : list Z) : In x (np.unique l) <-> In x l.
Proof.
  induction l as [| y l IH]; cbn; [tauto |].
  fold (np.unique l). rewrite insert_unique_In, IH. intuition.
Qed.

Lemma unique_sorted (l : list Z) : StronglySorted Z.lt (np.unique l).
Proof.
  induction l as [| y l IH]; cbn; [constructor |].
  now apply insert_unique_sorted.
Qed.

Lemma sorted_lt_NoDup (l : list Z) : StronglySorted Z.lt l -> NoDup l.
Proof.
  induction 1 as [| z l Hs IH Hall]; constructor; [| exact IH].
  intros Hin. rewrite Forall_forall in Hall. specialize (Hall z Hin). lia.
Qed.

(** The number of items [unique] returns is the alphabet size. *)
Lemma len_unique (l : list Z) : len (np.unique l) = alphabet_size l.
Proof.
  unfold alphabet_size, alphabet, len. f_equal.
  apply Nat.le_antisymm; apply NoDup_incl_length.
  - apply sorted_lt_NoDup, unique_sorted.
  - intros x Hx. apply nodup_In. now apply unique_In.
  - apply NoDup_nodup.
  - intros x Hx. apply unique_In. now apply nodup_In in Hx.
Qed.

Lemma alphabet_size_nonneg (l : list Z) : 0 <= alphabet_size l.
Proof. unfold alphabet_size, len. lia. Qed.

Lemma alphabet_size_pos (l : list Z) : l <> [] -> 1 <= alphabet_size l.
Proof.
  destruct l as [| x l]; [congruence | intros _].
  unfold alphabet_size, alphabet, len.
  assert (Hin : In x (nodup Z.eq_dec (x :: l))) by (apply nodup_In; now left).
  destruct (nodup Z.eq_dec (x :: l)); [destruct Hin | cbn; lia].
Qed.

End Unique.

(** ** The dictionary *)

Section Dict.

Lemma key_eqb_spec (a b : key) : reflect (a = b) (key_eqb a b).
Proof.
  destruct a as [x | x], b as [y | y]; cbn;
    try (constructor; discriminate).
  - unfold bytes_eqb. destruct (list_eq_dec Z.eq_dec x y) as [-> | Hne];
      constructor; congruence.
  - destruct (Z.eqb_spec x y) as [-> | Hne]; constructor; congruence.
Qed.

Lemma contains_In (k : key) (d : dict) :
  contains k d = true <-> In k (map fst d).
Proof.
  unfold contains. rewrite existsb_exists, in_map_iff. split.
  - intros [e [He Hk]]. exists e. split; [| exact He].
    symmetry. now destruct (key_eqb_spec k (fst e)).
  - intros [e [Hk He]]. exists e. split; [exact He |].
    destruct (key_eqb_spec k (fst e)); congruence.
Qed.

Lemma contains_false (k : key) (d : dict) :
  contains k d = false <-> ~ In k (map fst d).
Proof.
  rewrite <- contains_In. destruct (contains k d); split; congruence.
Qed.

(** Storing under an absent key appends the entry. *)
Lemma setitem_fresh (d : dict) (k : key) (v : Z) :
  contains k d = false -> setitem d k v = d ++ [(k, v)].
Proof.
  induction d as [| [k' v'] d IH]; cbn; [reflexivity |].
  destruct (key_eqb k k'); cbn; [discriminate |].
  intros H. now rewrite IH.
Qed.

Lemma setitem_length (d : dict) (k : key) (v : Z) :
  (List.length d <= List.length (setitem d k v))%nat.
Proof.
  induction d as [| [k' v'] d IH]; cbn; [lia |].
  destruct (key_eqb k k'); cbn; lia.
Qed.

End Dict.

(** ** The phrase table along the loop *)

Lemma last_cons_default {A : Type} (l : list A) (x d : A) :
  last (x :: l) d = last l x.
Proof.
  revert x d. induction l as [| y l IH]; intros x d; [reflexivity |].
  change (last (x :: y :: l) d) with (last (y :: l) d).
  now rewrite (IH y d), (IH y x).
Qed.

Section Loop.

Variable item : np.dtype_t.
Variable sequence_len : Z.

Lemma for_loop_last (its : list (Z * Z)) (s : loop_state) :
  for_loop item sequence_len its s =
    state_of (last (loop_trace item sequence_len its s) (Next s)).
Proof.
  revert s. induction its as [| [idx number] rest IH]; intros s;
    [reflexivity |].
  cbn [for_loop loop_trace].
  destruct (loop_body item sequence_len s idx number) as [s' | s'];
    [| reflexivity].
  rewrite IH. now rewrite last_cons_default.
Qed.

Lemma phrases_only_fresh_int (t : dict) (z : Z) :
  phrases_only t -> contains (KInt z) t = false.
Proof.
  intros Hp. apply contains_false. intros Hin.
  apply in_map_iff in Hin as [e [He Hin]].
  unfold phrases_only in Hp. rewrite Forall_forall in Hp.
  destruct (Hp e Hin) as [b Hb]. congruence.
Qed.

Lemma loop_body_step (s : loop_state) (idx number : Z) :
  phrases_only (table s) ->
  table_step (table s) (loop_body item sequence_len s idx number).
Proof.
  intros Hp. unfold loop_body.
  destruct (contains _ (table s)) eqn:Hc.
  - destruct (idx =? sequence_len - 1); cbn.
    + apply setitem_fresh. now apply phrases_only_fresh_int.
    + now left.
  - cbn. right. eexists. split; [exact Hc |].
    now apply setitem_fresh.
Qed.

Lemma table_invariant_app (t : dict) (k : key) (v : Z) :
  table_invariant t -> contains k t = false ->
  (forall b, k = KBytes b -> v = len t) ->
  table_invariant (t ++ [(k, v)]).
Proof.
  intros (Hnd & Hseed & Hidx) Hfresh Hv. repeat split.
  - rewrite map_app. cbn.
    apply NoDup_app; [exact Hnd | repeat constructor; intros [] | ].
    intros x Hx [<- | []]. now apply contains_false in Hfresh.
  - rewrite nth_error_app1; [exact Hseed |].
    apply nth_error_Some. congruence.
  - intros i b w Hnth.
    destruct (Nat.lt_ge_cases i (List.length t)) as [Hlt | Hge].
    + rewrite nth_error_app1 in Hnth by exact Hlt. now apply (Hidx i b).
    + rewrite nth_error_app2 in Hnth by exact Hge.
      destruct (i - List.length t)%nat as [| j] eqn:Hj; cbn in Hnth.
      * injection Hnth as Hk Hw. subst w.
        rewrite (Hv b Hk). unfold len. f_equal. lia.
      * destruct j; discriminate.
Qed.

(** Each iteration keeps the invariant; an iteration that does not leave
    the loop also keeps the table free of non-phrase keys. *)
Lemma loop_body_invariant (s : loop_state) (idx number : Z) :
  table_invariant (table s) -> phrases_only (table s) ->
  match loop_body item sequence_len s idx number with
  | Next s' => table_invariant (table s') /\ phrases_only (table s')
  | Break s' => table_invariant (table s')
  end.
Proof.
  intros Hinv Hp.
  pose proof (loop_body_step s idx number Hp) as Hstep.
  destruct (loop_body item sequence_len s idx number) as [s' | s']; cbn in Hstep.
  - destruct Hstep as [-> | [b [Hfresh ->]]]; [now split |]. split.
    + apply table_invariant_app; auto.
    + apply Forall_app. split; [exact Hp |].
      constructor; [now exists b | constructor].
  - rewrite Hstep. apply table_invariant_app; auto.
    + now apply phrases_only_fresh_int.
    + intros b Hb. discriminate.
Qed.

Lemma loop_trace_invariant (its : list (Z * Z)) (s : loop_state) :
  table_invariant (table s) -> phrases_only (table s) ->
  Forall (fun c => table_invariant (table (state_of c)))
         (loop_trace item sequence_len its s) /\
  table_steps (table s) (loop_trace item sequence_len its s).
Proof.
  revert s. induction its as [| [idx number] rest IH]; intros s Hinv Hp;
    cbn [loop_trace]; [split; [constructor | exact I] |].
  pose proof (loop_body_invariant s idx number Hinv Hp) as Hb.
  pose proof (loop_body_step s idx number Hp) as Hstep.
  destruct (loop_body item sequence_len s idx number) as [s' | s'].
  - destruct Hb as [Hinv' Hp'].
    destruct (IH s' Hinv' Hp') as [Hall Hsteps].
    split; [now constructor | now split].
  - split; [constructor; [exact Hb | constructor] | now split].
Qed.

End Loop.

Lemma last_nonempty_In {A : Type} (l : list A) (d : A) :
  l <> [] -> In (last l d) l.
Proof.
  induction l as [| x l IH]; [congruence | intros _].
  destruct l as [| y l]; [now left |].
  right. apply IH. discriminate.
Qed.

Lemma initial_state_invariant :
  table_invariant (table initial_state) /\ phrases_only (table initial_state).
Proof.
  split.
  - repeat split.
    + cbn. repeat constructor. intros [].
    + intros [| [| i]] b v H; cbn in H; try discriminate.
      now injection H as _ <-.
  - repeat constructor. now exists [].
Qed.

Lemma final_table_invariant (sequence : pyseq) :
  table_invariant (final_table sequence).
Proof.
  unfold final_table. rewrite for_loop_last.
  destruct initial_state_invariant as [Hinv Hp].
  destruct (loop_trace_invariant (item_dtype sequence) (len_seq sequence)
              (enumerate (items sequence)) initial_state Hinv Hp) as [Hall _].
  rewrite Forall_forall in Hall.
  destruct (loop_trace _ _ _) as [| c tr]; [exact Hinv |].
  apply Hall. now apply last_nonempty_In.
Qed.

Lemma final_table_nonempty (sequence : pyseq) :
  1 <= len (final_table sequence).
Proof.
  destruct (final_table_invariant sequence) as (_ & Hseed & _).
  destruct (final_table sequence); [discriminate |].
  unfold len. cbn [List.length]. lia.
Qed.

Lemma loop_trace_length (item : np.dtype_t) (sequence_len : Z)
  (its : list (Z * Z)) (s : loop_state) :
  (List.length (loop_trace item sequence_len its s) <= List.length its)%nat.
Proof.
  revert s. induction its as [| [idx number] rest IH]; intros s;
    cbn [loop_trace]; [cbn; lia |].
  destruct (loop_body item sequence_len s idx number) as [s' | s']; cbn.
  - specialize (IH s'). lia.
  - lia.
Qed.

Lemma enumerate_from_length {A : Type} (l : list A) (start : Z) :
  List.length (enumerate_from start l) = List.length l.
Proof.
  revert start. induction l as [| x l IH]; intros start; cbn;
    [reflexivity | now rewrite IH].
Qed.

(** ** The estimator over the reals *)

Section Estimator.

Local Open Scope R_scope.

Lemma ln2_pos : 0 < ln 2.
Proof. pose proof ln_lt_2. lra. Qed.

Lemma ln_IZR_nonneg (c : Z) : (1 <= c)%Z -> 0 <= ln (IZR c).
Proof.
  intros Hc. destruct (Z.eq_dec c 1) as [-> | Hne].
  - rewrite ln_1. lra.
  - left. rewrite <- ln_1. apply ln_increasing; [lra |].
    apply IZR_lt. lia.
Qed.

Lemma log2_IZR_nonneg (c : Z) : (1 <= c)%Z -> 0 <= ln (IZR c) / ln 2.
Proof.
  intros Hc. apply Rmult_le_pos; [now apply ln_IZR_nonneg |].
  left. apply Rinv_0_lt_compat, ln2_pos.
Qed.


Lemma ceilR_lt (x : R) : IZR (np.ceilR x) < x + 1.
Proof.
  unfold np.ceilR. rewrite minus_IZR.
  destruct (archimed (- x)) as [H _]. lra.
Qed.

Lemma ceilR_unique (x : R) (k : Z) :
  IZR k - 1 < x <= IZR k -> np.ceilR x = k.
Proof.
  intros [Hlo Hhi]. unfold np.ceilR.
  assert (Hup : (1 - k)%Z = up (- x)).
  { apply tech_up; rewrite minus_IZR; lra. }
  rewrite <- Hup. lia.
Qed.

Lemma ln_le_mono (x y : R) : 0 < x -> x <= y -> ln x <= ln y.
Proof.
  intros Hx [Hlt | ->]; [left; now apply ln_increasing | apply Rle_refl].
Qed.

Lemma log2_pow2 (j : Z) : (0 <= j)%Z -> ln (IZR (2 ^ j)) / ln 2 = IZR j.
Proof.
  intros Hj. rewrite <- (Z2Nat.id j Hj) at 1.
  rewrite <- pow_IZR, ln_pow by lra.
  rewrite INR_IZR_INZ, Z2Nat.id by exact Hj.
  field. pose proof ln2_pos. lra.
Qed.

(** The alphabet description length is the integer [log2_up a]. *)
Lemma adl_log2_up (a : Z) :
  (1 <= a)%Z -> np.ceilR (ln (IZR a) / ln 2) = Z.log2_up a.
Proof.
  intros Ha. apply ceilR_unique.
  destruct (Z.eq_dec a 1) as [-> | Hne].
  - rewrite ln_1. change (Z.log2_up 1) with 0%Z. lra.
  - destruct (Z.log2_up_spec a) as [Hlo Hhi]; [lia |].
    assert (Hk : (0 < Z.log2_up a)%Z) by (apply Z.log2_up_pos; lia).
    pose proof ln2_pos as Hln2.
    assert (Hinv : 0 < / ln 2) by now apply Rinv_0_lt_compat.
    split.
    + rewrite <- minus_IZR.
      replace (Z.log2_up a - 1)%Z with (Z.pred (Z.log2_up a)) by lia.
      rewrite <- (log2_pow2 (Z.pred (Z.log2_up a))) by lia.
      apply Rmult_lt_compat_r; [exact Hinv |].
      apply ln_increasing; [| now apply IZR_lt].
      apply IZR_lt. apply Z.pow_pos_nonneg; lia.
    + rewrite <- (log2_pow2 (Z.log2_up a)) by lia.
      apply Rmult_le_compat_r; [lra |].
      apply ln_le_mono; [apply IZR_lt; lia | now apply IZR_le].
Qed.


Lemma log2_pos_arg (n : Z) :
  (1 <= n)%Z -> np.log2 n = np.Finite (ln (IZR n) / ln 2).
Proof.
  intros Hn. unfold np.log2.
  destruct (Z.eqb_spec n 0); [lia |].
  destruct (Z.ltb_spec n 0); [lia | reflexivity].
Qed.

(** With at least two items and two distinct symbols the estimator takes
    neither shortcut and evaluates the closed form. *)
Lemma estimate_formula (sequence : pyseq) :
  (2 <= len_seq sequence)%Z ->
  (2 <= alphabet_size (items sequence))%Z ->
  estimate sequence =
    PyFloat (np.Finite (formula (len (final_table sequence))
                          (alphabet_size (items sequence))
                          (len_seq sequence))).
Proof.
  intros Hn Ha. unfold estimate.
  destruct (Z.eqb_spec (len_seq sequence) 1); [lia |].
  rewrite items_array, len_unique.
  destruct (Z.eqb_spec (alphabet_size (items sequence)) 1); [lia |].
  rewrite !log2_pos_arg by (try apply final_table_nonempty; lia).
  cbn [np.ceil np.add np.mul_int np.div_int].
  destruct (Z.eqb_spec (len_seq sequence) 0); [lia | reflexivity].
Qed.

Lemma estimate_single (sequence : pyseq) :
  len_seq sequence = 1%Z -> estimate sequence = PyInt 0.
Proof. intros H. unfold estimate. now rewrite H. Qed.

Lemma estimate_one_symbol (sequence : pyseq) :
  alphabet_size (items sequence) = 1%Z -> estimate sequence = PyInt 0.
Proof.
  intros H. unfold estimate.
  destruct (len_seq sequence =? 1)%Z; [reflexivity |].
  now rewrite items_array, len_unique, H.
Qed.

End Estimator.

Lemma alphabet_repeat (x : Z) (n : nat) : alphabet (repeat x (S n)) = [x].
Proof.
  unfold alphabet. induction n as [| n IH]; [reflexivity |].
  change (repeat x (S (S n))) with (x :: repeat x (S n)).
  cbn [nodup]. destruct (in_dec Z.eq_dec x (repeat x (S n))) as [_ | Hn];
    [exact IH |].
  exfalso. apply Hn. now left.
Qed.

(** ** The error message of the size check *)

Section Message.

Lemma input_error_message (new_size : Z) (g : globals) :
  InputError (set_minimum_size new_size g) =
    ValueError
      (String.append "Sample size is below minimum ("
         (String.append (str new_size)
            " outcomes). Minimal sample size can be set, at your own risk, via LZ78.set_minimum_size(new_size). Keep in mind that the accuracy of the estimate grows with the sample size.")).
Proof. reflexivity. Qed.

Lemma str_inj (z1 z2 : Z) : str z1 = str z2 -> z1 = z2.
Proof.
  unfold str. intros H.
  assert (Hn : forall z, Z.to_int z <> Decimal.Pos Decimal.Nil /\
                         Z.to_int z <> Decimal.Neg Decimal.Nil).
  { intros [| q | q]; cbn; split; try discriminate; intros [= E];
      now apply (Unsigned.to_uint_nonnil q). }
  apply (f_equal NilZero.int_of_string) in H.
  rewrite !NilZero.isi in H by apply Hn.
  injection H as H. apply (f_equal Z.of_int) in H.
  now rewrite !DecimalZ.of_to in H.
Qed.

Lemma string_append_length (a b : string) :
  String.length (String.append a b) = (String.length a + String.length b)%nat.
Proof. induction a as [| c a IH]; cbn; [reflexivity | now rewrite IH]. Qed.

Lemma string_append_inv_tail (a b t : string) :
  String.append a t = String.append b t -> a = b.
Proof.
  revert b. induction a as [| c a IH]; intros [| c' b] H; cbn in H.
  - reflexivity.
  - apply (f_equal String.length) in H. cbn in H.
    rewrite string_append_length in H. lia.
  - apply (f_equal String.length) in H. cbn in H.
    rewrite string_append_length in H. lia.
  - injection H as -> H. f_equal. now apply IH.
Qed.

(** The stored error tells the threshold it was made for. *)
Lemma input_error_message_inj (k1 k2 : Z) (g1 g2 : globals) :
  InputError (set_minimum_size k1 g1) = InputError (set_minimum_size k2 g2) ->
  k1 = k2.
Proof.
  rewrite !input_error_message. intros H. injection H as H.
  cbn [String.append] in H.
  apply str_inj. eapply string_append_inv_tail.
  repeat (injection H as H). exact H.
Qed.

End Message.

(** ** Byte images of phrases *)

Section Encoding.

Lemma le_bytes_length (n : nat) (w : Z) : List.length (np.le_bytes n w) = n.
Proof.
  revert w. induction n as [| n IH]; intros w; cbn; [reflexivity |].
  now rewrite IH.
Qed.

Lemma le_bytes_inj (n : nat) (w1 w2 : Z) :
  0 <= w1 < 256 ^ Z.of_nat n -> 0 <= w2 < 256 ^ Z.of_nat n ->
  np.le_bytes n w1 = np.le_bytes n w2 -> w1 = w2.
Proof.
  revert w1 w2. induction n as [| n IH]; intros w1 w2 H1 H2 E.
  - cbn in H1, H2. lia.
  - cbn [np.le_bytes] in E. injection E as Hlow Hhigh.
    rewrite Nat2Z.inj_succ, Z.pow_succ_r in H1, H2 by lia.
    assert (w1 / 256 = w2 / 256) as Hq.
    { apply IH; [| | exact Hhigh].
      - split; [apply Z.div_pos; lia | apply Z.div_lt_upper_bound; lia].
      - split; [apply Z.div_pos; lia | apply Z.div_lt_upper_bound; lia]. }
    rewrite (Z.div_mod w1 256), (Z.div_mod w2 256) by lia. congruence.
Qed.

(** Sign, exponent and fraction of the double of a non-zero exact integer. *)
Lemma float64_bits_fields (z : Z) :
  z <> 0 -> float_exact z ->
  exists e f,
    0 <= e <= 53 /\ 0 <= f < 2 ^ 52 /\
    np.float64_bits z =
      (if z <? 0 then 1 else 0) * 2 ^ 63 + (e + 1023) * 2 ^ 52 + f /\
    Z.abs z * 2 ^ 52 = (f + 2 ^ 52) * 2 ^ e.
Proof.
  intros Hz Hex. unfold float_exact in Hex. unfold np.float64_bits.
  destruct (Z.eqb_spec z 0) as [| _]; [contradiction |].
  set (m := Z.abs z). assert (Hm : 0 < m <= 2 ^ 53) by (unfold m; lia).
  set (e := Z.log2 m).
  destruct (Z.log2_spec m (proj1 Hm)) as [Hlo Hhi]. fold e in Hlo, Hhi.
  assert (He0 : 0 <= e) by apply Z.log2_nonneg.
  assert (He : e <= 53).
  { unfold e. rewrite <- (Z.log2_pow2 53) by lia. apply Z.log2_le_mono. lia. }
  destruct (Z.leb_spec e 52) as [Hle | Hgt].
  - exists e, (m * 2 ^ (52 - e) - 2 ^ 52).
    assert (Hpow : 2 ^ e * 2 ^ (52 - e) = 2 ^ 52).
    { rewrite <- Z.pow_add_r by lia. f_equal. lia. }
    assert (Hpow' : 2 ^ Z.succ e * 2 ^ (52 - e) = 2 ^ 53).
    { rewrite <- Z.pow_add_r by lia. f_equal. lia. }
    assert (HP : 0 < 2 ^ (52 - e)) by (apply Z.pow_pos_nonneg; lia).
    repeat split; try lia.
    + nia.
    + nia.
    + nia.
  - assert (e = 53) as He53 by lia.
    assert (m = 2 ^ 53) as Hm53.
    { rewrite He53 in Hlo. lia. }
    exists 53, 0. rewrite He53, Hm53.
    repeat split; try lia.
Qed.

Lemma float64_bits_range (z : Z) :
  float_exact z -> 0 <= np.float64_bits z < 2 ^ 64.
Proof.
  intros Hex. destruct (Z.eq_dec z 0) as [-> | Hz]; [cbn; lia |].
  destruct (float64_bits_fields z Hz Hex) as (e & f & He & Hf & -> & _).
  destruct (z <? 0); lia.
Qed.

Lemma float64_bits_nonzero (z : Z) :
  z <> 0 -> float_exact z -> 2 ^ 61 <= np.float64_bits z < 2 ^ 64 - 2 ^ 61.
Proof.
  intros Hz Hex.
  destruct (float64_bits_fields z Hz Hex) as (e & f & He & Hf & -> & _).
  destruct (z <? 0); lia.
Qed.

Lemma float64_bits_inj (z1 z2 : Z) :
  float_exact z1 -> float_exact z2 ->
  np.float64_bits z1 = np.float64_bits z2 -> z1 = z2.
Proof.
  intros H1 H2 E.
  destruct (Z.eq_dec z1 0) as [-> | Hz1], (Z.eq_dec z2 0) as [-> | Hz2];
    [reflexivity | | |].
  - pose proof (float64_bits_nonzero z2 Hz2 H2).
    change (np.float64_bits 0) with 0 in E. lia.
  - pose proof (float64_bits_nonzero z1 Hz1 H1).
    change (np.float64_bits 0) with 0 in E. lia.
  - destruct (float64_bits_fields z1 Hz1 H1)
      as (e1 & f1 & He1 & Hf1 & Hb1 & Hm1).
    destruct (float64_bits_fields z2 Hz2 H2)
      as (e2 & f2 & He2 & Hf2 & Hb2 & Hm2).
    rewrite Hb1, Hb2 in E.
    assert (Hs : (z1 <? 0) = (z2 <? 0) /\ e1 = e2 /\ f1 = f2).
    { destruct (z1 <? 0), (z2 <? 0); repeat split; lia. }
    destruct Hs as (Hs & -> & ->).
    assert (Z.abs z1 = Z.abs z2) as Habs.
    { apply (Z.mul_reg_r _ _ (2 ^ 52)); [lia | congruence]. }
    destruct (Z.ltb_spec z1 0), (Z.ltb_spec z2 0); try discriminate; lia.
Qed.

Lemma item_bytes_float64 (z : Z) :
  np.item_bytes np.float64 z = np.le_bytes 8 (np.float64_bits z).
Proof. reflexivity. Qed.

Lemma item_bytes_int64 (z : Z) :
  np.item_bytes np.int64 z = np.le_bytes 8 (z mod 2 ^ 64).
Proof. reflexivity. Qed.

Lemma item_bytes_float64_inj (z1 z2 : Z) :
  float_exact z1 -> float_exact z2 ->
  np.item_bytes np.float64 z1 = np.item_bytes np.float64 z2 -> z1 = z2.
Proof.
  intros H1 H2 E. rewrite !item_bytes_float64 in E.
  apply float64_bits_inj; [exact H1 | exact H2 |].
  apply (le_bytes_inj 8); [| | exact E];
    change (256 ^ Z.of_nat 8) with (2 ^ 64); now apply float64_bits_range.
Qed.

Lemma app_same_length_inj {A : Type} (a b x y : list A) :
  List.length a = List.length b -> a ++ x = b ++ y -> a = b /\ x = y.
Proof.
  revert b. induction a as [| h a IH]; intros [| h' b] Hlen E;
    try discriminate; [now split |].
  cbn in Hlen, E. injection E as -> E. injection Hlen as Hlen.
  destruct (IH b Hlen E) as [-> ->]. now split.
Qed.

Lemma enc_length (p : list Z) :
  List.length (enc p) = (8 * List.length p)%nat.
Proof.
  unfold enc, np.tobytes. cbn [np.dtype np.data].
  induction p as [| x p IH]; [reflexivity |].
  cbn [flat_map]. rewrite length_app, IH, item_bytes_float64, le_bytes_length.
  cbn [List.length]. lia.
Qed.

Lemma enc_nonempty (p : list Z) : p <> [] -> enc p <> [].
Proof.
  intros Hp H. apply (f_equal (@List.length Z)) in H.
  rewrite enc_length in H. destruct p; [congruence | cbn in H; lia].
Qed.

(** A phrase of exact integers is determined by its float64 key. *)
Lemma enc_inj (p q : list Z) :
  Forall float_exact p -> Forall float_exact q -> enc p = enc q -> p = q.
Proof.
  intros Hp. revert q. induction Hp as [| x p Hx Hp IH]; intros q Hq E.
  - destruct q as [| y q]; [reflexivity |].
    symmetry in E. now apply enc_nonempty in E.
  - destruct q as [| y q]; [now apply enc_nonempty in E |].
    inversion Hq as [| ? ? Hy Hq']; subst.
    change (enc (x :: p)) with (np.item_bytes np.float64 x ++ enc p) in E.
    change (enc (y :: q)) with (np.item_bytes np.float64 y ++ enc q) in E.
    apply app_same_length_inj in E as [Ex Ep].
    + f_equal; [now apply item_bytes_float64_inj | now apply IH].
    + now rewrite !item_bytes_float64, !le_bytes_length.
Qed.

(** The int64 key of a non-zero first symbol is the float64 key of no
    phrase. *)
Lemma int64_key_not_float64 (s0 : Z) (p : list Z) :
  s0 <> 0 -> float_exact s0 -> Forall float_exact p ->
  enc p <> np.item_bytes np.int64 s0.
Proof.
  intros Hs0 Hex Hp E.
  assert (Hlen : List.length p = 1%nat).
  { apply (f_equal (@List.length Z)) in E.
    rewrite enc_length, item_bytes_int64, le_bytes_length in E. lia. }
  destruct p as [| x [| y p]]; try discriminate.
  inversion Hp as [| ? ? Hx _]; subst.
  change (enc [x]) with (np.item_bytes np.float64 x ++ []) in E.
  rewrite app_nil_r, item_bytes_float64, item_bytes_int64 in E.
  apply (le_bytes_inj 8) in E.
  - unfold float_exact in Hex.
    assert (Hmod : 1 <= s0 mod 2 ^ 64 <= 2 ^ 53 \/
                   2 ^ 64 - 2 ^ 53 <= s0 mod 2 ^ 64).
    { destruct (Z.ltb_spec s0 0).
      - right. replace s0 with (s0 + 2 ^ 64 + (-1) * 2 ^ 64) by lia.
        rewrite Z.mod_add by lia. rewrite Z.mod_small; lia.
      - left. rewrite Z.mod_small; lia. }
    destruct (Z.eq_dec x 0) as [-> | Hx0].
    + change (np.float64_bits 0) with 0 in E. lia.
    + pose proof (float64_bits_nonzero x Hx0 Hx). lia.
  - change (256 ^ Z.of_nat 8) with (2 ^ 64). now apply float64_bits_range.
  - change (256 ^ Z.of_nat 8) with (2 ^ 64). apply Z.mod_pos_bound. lia.
Qed.

End Encoding.

(** ** The loop against the specification's parser *)

Section Simulation.

Variable item : np.dtype_t.
Variable n : Z.
Variable others : list key.
Hypothesis others_foreign : foreign_keys others.

Lemma phrase_eqb_spec (p q : list Z) : reflect (p = q) (phrase_eqb p q).
Proof.
  unfold phrase_eqb. destruct (list_eq_dec Z.eq_dec p q); now constructor.
Qed.

Lemma simulates_len (s : loop_state) (phrases : list (list Z))
  (buffer : list Z) :
  simulates others s phrases buffer ->
  len (table s) = len others + len phrases.
Proof.
  intros (Hk & _). unfold len.
  rewrite <- (length_map fst (table s)), Hk, length_app.
  unfold phrase_keys. rewrite length_map. lia.
Qed.

(** Looking the buffer up in the table is looking the phrase up among the
    phrases. *)
Lemma lookup_agrees (s : loop_state) (phrases : list (list Z))
  (buffer : list Z) (x : Z) :
  simulates others s phrases buffer -> float_exact x ->
  contains (KBytes (np.tobytes (np.append (current_seq s) item x))) (table s) =
    existsb (phrase_eqb (buffer ++ [x])) phrases.
Proof.
  intros (Hk & Hb & Hph & Hbuf) Hx. rewrite Hb.
  change (np.tobytes (np.append (np.mk_ndarray np.float64 buffer) item x))
    with (enc (buffer ++ [x])).
  assert (Hcur : Forall float_exact (buffer ++ [x])).
  { apply Forall_app. split; [exact Hbuf | now constructor]. }
  apply Bool.eq_true_iff_eq.
  rewrite contains_In, Hk, in_app_iff, existsb_exists. split.
  - intros [Hin | Hin].
    + exfalso. destruct others_foreign as [_ Hf].
      apply (Hf (buffer ++ [x])); [| exact Hcur | exact Hin].
      destruct buffer; discriminate.
    + unfold phrase_keys in Hin. apply in_map_iff in Hin as [p [Hp Hin]].
      exists p. split; [exact Hin |].
      injection Hp as Hp. rewrite Forall_forall in Hph.
      apply enc_inj in Hp; [| now apply Hph | exact Hcur].
      subst p. now destruct (phrase_eqb_spec (buffer ++ [x]) (buffer ++ [x])).
  - intros [p [Hin Hp]]. right.
    destruct (phrase_eqb_spec (buffer ++ [x]) p) as [-> | ]; [| discriminate].
    exact (in_map (fun q => KBytes (enc q)) phrases p Hin).
Qed.

Lemma simulates_fresh_eoi (s : loop_state) (phrases : list (list Z))
  (buffer : list Z) :
  simulates others s phrases buffer -> contains (KInt (-1)) (table s) = false.
Proof.
  intros (Hk & _). apply contains_false. rewrite Hk, in_app_iff.
  intros [Hin | Hin]; [now apply (proj1 others_foreign) |].
  unfold phrase_keys in Hin. apply in_map_iff in Hin as [p [Hp _]].
  discriminate.
Qed.

Lemma simulates_insert (s : loop_state) (phrases : list (list Z))
  (buffer : list Z) (x : Z) :
  simulates others s phrases buffer -> float_exact x ->
  contains (KBytes (enc (buffer ++ [x]))) (table s) = false ->
  simulates others
    (mk_state (setitem (table s) (KBytes (enc (buffer ++ [x]))) (len (table s)))
              (np.array_empty np.float64))
    (phrases ++ [buffer ++ [x]]) [].
Proof.
  intros (Hk & Hb & Hph & Hbuf) Hx Hfresh. repeat split.
  - cbn [table]. rewrite setitem_fresh by exact Hfresh.
    rewrite map_app, Hk. unfold phrase_keys. rewrite map_app, app_assoc.
    reflexivity.
  - apply Forall_app. split; [exact Hph |].
    constructor; [| constructor].
    apply Forall_app. split; [exact Hbuf | now constructor].
  - constructor.
Qed.

(** From a state that stands for [(phrases, buffer)], the loop over the
    remaining items leaves a table with one entry per foreign key, one per
    phrase of the parser, and one more when the parser ends with a pending
    buffer. *)
Lemma for_loop_counts (rest : list Z) :
  forall (x idx : Z) (s : loop_state) (phrases : list (list Z))
         (buffer : list Z),
    simulates others s phrases buffer ->
    Forall float_exact (x :: rest) ->
    idx + len (x :: rest) = n ->
    len (table (for_loop item n (enumerate_from idx (x :: rest)) s)) =
      len others
      + len (fst (lz78_parse phrases buffer (x :: rest)))
      + pending (snd (lz78_parse phrases buffer (x :: rest))).
Proof.
  induction rest as [| y rest IH]; intros x idx s phrases buffer Hsim Hex Hidx.
  - inversion Hex as [| ? ? Hx _]; subst.
    cbn [enumerate_from for_loop lz78_parse]. unfold loop_body.
    rewrite (lookup_agrees s phrases buffer x Hsim Hx).
    pose proof (simulates_len s phrases buffer Hsim) as Hlen.
    destruct (existsb (phrase_eqb (buffer ++ [x])) phrases) eqn:Hfound.
    + assert ((idx =? idx + len [x] - 1) = true) as ->
        by (apply Z.eqb_eq; unfold len; cbn; lia).
      cbn [table fst snd].
      rewrite setitem_fresh by (eapply simulates_fresh_eoi; exact Hsim).
      unfold len in *. rewrite length_app. cbn [List.length].
      destruct buffer; cbn [app pending]; lia.
    + cbn [table fst snd pending].
      rewrite setitem_fresh
        by (rewrite (lookup_agrees s phrases buffer x Hsim Hx); exact Hfound).
      unfold len in *. rewrite !length_app. cbn [List.length]. lia.
  - inversion Hex as [| ? ? Hx Hex']; subst.
    cbn [enumerate_from for_loop]. fold (enumerate_from (idx + 1) (y :: rest)).
    change (lz78_parse phrases buffer (x :: y :: rest)) with
      (if existsb (phrase_eqb (buffer ++ [x])) phrases
       then lz78_parse phrases (buffer ++ [x]) (y :: rest)
       else lz78_parse (phrases ++ [buffer ++ [x]]) [] (y :: rest)).
    unfold loop_body.
    pose proof (lookup_agrees s phrases buffer x Hsim Hx) as Hlook.
    rewrite Hlook.
    assert (Hidx' : idx + 1 + len (y :: rest) = idx + len (x :: y :: rest)).
    { unfold len. cbn [List.length]. lia. }
    destruct (existsb (phrase_eqb (buffer ++ [x])) phrases) eqn:Hfound.
    + assert ((idx =? idx + len (x :: y :: rest) - 1) = false) as ->
        by (apply Z.eqb_neq; unfold len; cbn [List.length]; lia).
      apply IH; [| exact Hex' | exact Hidx'].
      destruct Hsim as (Hk & Hb & Hph & Hbuf). repeat split.
      * exact Hk.
      * cbn [current_seq]. now rewrite Hb.
      * exact Hph.
      * apply Forall_app. split; [exact Hbuf | now constructor].
    + apply IH; [| exact Hex' | exact Hidx'].
      destruct Hsim as (Hk & Hb & Hph & Hbuf).
      rewrite Hb.
      change (np.tobytes (np.append (np.mk_ndarray np.float64 buffer) item x))
        with (enc (buffer ++ [x])).
      apply simulates_insert; [now repeat split | exact Hx |].
      rewrite Hb in Hlook. exact Hlook.
Qed.

End Simulation.

Lemma result_type_int64 (item : np.dtype_t) :
  np.result_type np.int64 item = np.int64 \/
  np.result_type np.int64 item = np.float64.
Proof.
  unfold np.result_type.
  destruct (np.is_float np.int64 || np.is_float item || np.is_uint64 item);
    [now right | now left].
Qed.

(** The first iteration stores the first symbol, in the dtype the int64
    buffer and the item agree on, and resets the buffer to float64. *)
Lemma first_iteration (item : np.dtype_t) (n s0 : Z) :
  loop_body item n initial_state 0 s0 =
    Next (mk_state
            [(KBytes [], 0);
             (KBytes (np.item_bytes (np.result_type np.int64 item) s0), 1)]
            (np.array_empty np.float64)).
Proof.
  unfold loop_body, initial_state. cbn [current_seq table].
  change (np.tobytes (np.append (np.array_empty np.int64) item s0))
    with (np.item_bytes (np.result_type np.int64 item) s0 ++ []).
  rewrite app_nil_r.
  destruct (result_type_int64 item) as [-> | ->]; reflexivity.
Qed.

Lemma for_loop_cons (item : np.dtype_t) (n idx x : Z) (rest : list Z)
  (s : loop_state) :
  for_loop item n (enumerate_from idx (x :: rest)) s =
    match loop_body item n s idx x with
    | Next s' => for_loop item n (enumerate_from (idx + 1) rest) s'
    | Break s' => s'
    end.
Proof. reflexivity. Qed.

(** When the first phrase is stored under the key a float64 buffer gives it,
    the table gets the phrase count of the specification. *)
Lemma final_table_consistent (sequence : pyseq) (s0 x : Z) (rest : list Z) :
  items sequence = s0 :: x :: rest ->
  np.item_bytes (np.result_type np.int64 (item_dtype sequence)) s0 = enc [s0] ->
  Forall float_exact (s0 :: x :: rest) ->
  len (final_table sequence) = expected_phrase_count (items sequence).
Proof.
  intros Hitems Hkey Hex. inversion Hex as [| ? ? Hex0 Hex']; subst.
  unfold final_table, len_seq. rewrite Hitems.
  unfold enumerate. rewrite for_loop_cons, first_iteration, Hkey.
  rewrite (for_loop_counts _ _ [KBytes []])
    with (phrases := [[s0]]) (buffer := []).
  - unfold expected_phrase_count, lz78_phrases, trailing_repeat.
    change (lz78_parse [] [] (s0 :: x :: rest))
      with (lz78_parse [[s0]] [] (x :: rest)).
    destruct (lz78_parse [[s0]] [] (x :: rest)) as [ph [| b buf]];
      cbn [fst snd pending]; unfold len; cbn [List.length]; lia.
  - split; [intros [H | []]; discriminate |].
    intros p Hp _ [H | []]. injection H as H. now apply (enc_nonempty p).
  - repeat split; repeat constructor; apply Hex0.
  - exact Hex'.
  - unfold len. cbn [List.length]. lia.
Qed.

(** A sequence of exact integers that starts with 0, whose int64 and float64
    bytes coincide, gets the phrase count of the specification. *)
Lemma final_table_leading_zero (sequence : pyseq) (x : Z) (rest : list Z) :
  items sequence = 0 :: x :: rest ->
  Forall float_exact (x :: rest) ->
  len (final_table sequence) = expected_phrase_count (items sequence).
Proof.
  intros Hitems Hex. apply (final_table_consistent sequence 0 x rest Hitems).
  - destruct (result_type_int64 (item_dtype sequence)) as [-> | ->];
      reflexivity.
  - constructor; [unfold float_exact; lia | exact Hex].
Qed.

(** So does a sequence whose items make the buffer a float64 array from the
    first phrase on (an array of floats handed over with the check
    overridden). *)
Lemma final_table_float_items (sequence : pyseq) (s0 x : Z) (rest : list Z) :
  items sequence = s0 :: x :: rest ->
  np.result_type np.int64 (item_dtype sequence) = np.float64 ->
  Forall float_exact (s0 :: x :: rest) ->
  len (final_table sequence) = expected_phrase_count (items sequence).
Proof.
  intros Hitems Hdt Hex.
  apply (final_table_consistent sequence s0 x rest Hitems); [| exact Hex].
  rewrite Hdt. reflexivity.
Qed.

(** A sequence of exact integer items (Python ints, or an array of signed
    integers) that starts with a non-zero symbol gets one entry for that
    symbol, keyed by its int64 bytes, and then the phrase count of the rest
    of the sequence parsed afresh. *)
Lemma final_table_leading_nonzero (sequence : pyseq) (s0 x : Z)
  (rest : list Z) :
  items sequence = s0 :: x :: rest ->
  np.result_type np.int64 (item_dtype sequence) = np.int64 ->
  s0 <> 0 ->
  Forall float_exact (s0 :: x :: rest) ->
  len (final_table sequence) = 1 + expected_phrase_count (x :: rest).
Proof.
  intros Hitems Hdt Hs0 Hex. inversion Hex as [| ? ? Hex0 Hex']; subst.
  unfold final_table, len_seq. rewrite Hitems.
  unfold enumerate. rewrite for_loop_cons, first_iteration, Hdt.
  rewrite (for_loop_counts _ _
             [KBytes []; KBytes (np.item_bytes np.int64 s0)])
    with (phrases := []) (buffer := []).
  - unfold expected_phrase_count, lz78_phrases, trailing_repeat.
    destruct (lz78_parse [] [] (x :: rest)) as [ph [| b buf]];
      cbn [fst snd pending]; unfold len; cbn [List.length]; lia.
  - split; [intros [H | [H | []]]; discriminate |].
    intros p Hp Hpex [H | [H | []]]; injection H as H.
    + now apply (enc_nonempty p).
    + now apply (int64_key_not_float64 s0 p).
  - repeat split; constructor.
  - exact Hex'.
  - unfold len. cbn [List.length]. lia.
Qed.

(** ** Lists of ints, strings and None *)

Section MixedLists.

Lemma cast_to_unicode (from : Mixed.dtype_t) (n : nat) (o : Mixed.pyobj) :
  Mixed.is_int o || Mixed.is_str o = true ->
  Mixed.is_str (Mixed.cast from (Mixed.unicode n) o) = true.
Proof. destruct o; cbn; [reflexivity | reflexivity | discriminate]. Qed.

Lemma fold_result_type_ints (l : list Mixed.pyobj) :
  forallb Mixed.is_int l = true ->
  fold_left Mixed.result_type (map Mixed.scalar_dtype l) Mixed.int64
    = Mixed.int64.
Proof.
  induction l as [| o l IH]; [reflexivity |].
  destruct o; cbn [forallb Mixed.is_int andb]; try discriminate.
  exact IH.
Qed.

Lemma fold_result_type_strs (l : list Mixed.pyobj) (n : nat) :
  forallb Mixed.is_str l = true ->
  exists m, fold_left Mixed.result_type (map Mixed.scalar_dtype l)
              (Mixed.unicode n) = Mixed.unicode m.
Proof.
  revert n. induction l as [| o l IH]; intros n; [now exists n |].
  destruct o; cbn [forallb Mixed.is_str andb]; try discriminate.
  intros H. apply (IH _ H).
Qed.

(** The dtype of a list of ints and strings: a unicode dtype from the
    first string on, int64 while there are ints only. *)
Lemma fold_result_type_plain (l : list Mixed.pyobj) :
  forallb (fun o => (Mixed.is_int o || Mixed.is_str o) && Mixed.in_range o) l
    = true ->
  (forall n, exists m,
     fold_left Mixed.result_type (map Mixed.scalar_dtype l) (Mixed.unicode n)
       = Mixed.unicode m) /\
  ((fold_left Mixed.result_type (map Mixed.scalar_dtype l) Mixed.int64
      = Mixed.int64 /\
    forallb (fun o => Mixed.is_int o && Mixed.in_range o) l = true) \/
   exists m,
     fold_left Mixed.result_type (map Mixed.scalar_dtype l) Mixed.int64
       = Mixed.unicode m).
Proof.
  induction l as [| o l IH]; cbn [forallb].
  - intros _. split; [intros n; now exists n | left; now split].
  - intros H. apply andb_prop in H. destruct H as [Ho Hl].
    destruct (IH Hl) as [IHu IHi].
    destruct o as [z | s |]; cbn in Ho; try discriminate;
      cbn [map fold_left Mixed.scalar_dtype Mixed.result_type].
    + split; [intros n; apply IHu |].
      destruct IHi as [[E F] | [m E]]; [left | right; now exists m].
      split; [exact E |]. cbn [Mixed.is_int Mixed.in_range andb].
      now rewrite Ho, F.
    + split; [intros n; apply IHu |]. right. apply IHu.
Qed.

(** The array a list of ints and strings is cast to holds ints only, or
    strings only. *)
Lemma array_plain (sequence : Mixed.pyseq) :
  Mixed.plain sequence = true ->
  Mixed.plain (Mixed.PyArray (Mixed.array sequence)) = true.
Proof.
  destruct sequence as [l | a]; [| trivial].
  cbn [Mixed.plain Mixed.array Mixed.dtype Mixed.data]. intros H.
  destruct l as [| o l]; [reflexivity |].
  assert (Hitems : forall d, forallb Mixed.is_str
            (map (fun x => Mixed.cast (Mixed.scalar_dtype x) (Mixed.unicode d) x)
               (o :: l)) = true).
  { intros d. rewrite forallb_forall in H. apply forallb_forall.
    intros x Hx. apply in_map_iff in Hx. destruct Hx as [y [<- Hy]].
    apply cast_to_unicode. specialize (H y Hy).
    now apply andb_prop in H. }
  cbn [forallb] in H. apply andb_prop in H. destruct H as [Ho Hl].
  destruct (fold_result_type_plain l Hl) as [Hu Hi].
  unfold Mixed.list_dtype.
  destruct o as [z | s |]; cbn in Ho; try discriminate;
    cbn [Mixed.scalar_dtype].
  - destruct Hi as [[E F] | [m E]]; rewrite E; [| apply Hitems].
    rewrite map_ext with (g := fun x => x) by reflexivity. rewrite map_id.
    cbn [forallb Mixed.is_int Mixed.in_range andb]. now rewrite Ho.
  - destruct (Hu (Mixed.width s)) as [m E]. rewrite E. apply Hitems.
Qed.

Lemma plain_array_orderable (a : Mixed.ndarray) :
  Mixed.plain (Mixed.PyArray a) = true ->
  Mixed.orderable (Mixed.data a) = true.
Proof.
  cbn [Mixed.plain]. unfold Mixed.orderable.
  destruct (Mixed.dtype a); intros H; try discriminate.
  - apply orb_true_intro. left. rewrite forallb_forall in *.
    intros x Hx. specialize (H x Hx). now apply andb_prop in H.
  - apply orb_true_intro. left. rewrite forallb_forall in *.
    intros x Hx. specialize (H x Hx). now apply andb_prop in H.
  - rewrite H. apply orb_true_r.
Qed.

(** [unique] returns on an array of ints or of strings. *)
Lemma unique_plain (sequence : Mixed.pyseq) :
  Mixed.plain sequence = true ->
  Mixed.unique (Mixed.array sequence) =
    Mixed.Return (nodup Mixed.pyobj_eq_dec (Mixed.data (Mixed.array sequence))).
Proof.
  intros H. unfold Mixed.unique.
  rewrite (plain_array_orderable _ (array_plain _ H)).
  now rewrite andb_false_r.
Qed.

Lemma mixed_estimate_plain (sequence : Mixed.pyseq) :
  Mixed.plain sequence = true ->
  exists v, Mixed.estimate sequence = Mixed.Return v.
Proof.
  intros H. unfold Mixed.estimate.
  destruct (Mixed.len_seq sequence =? 1); [now eexists |].
  rewrite (unique_plain _ H). cbn [Mixed.bind].
  destruct (len _ =? 1); now eexists.
Qed.

(** The code after the input handling raises no [ValueError]: on the lists
    of objects too, [erLZ78] raises one exactly when the input check is not
    overridden and fails. *)
Lemma mixed_estimate_raises (sequence : Mixed.pyseq) (e : Mixed.exn) :
  Mixed.estimate sequence = Mixed.Raise e -> e = Mixed.TypeError.
Proof.
  unfold Mixed.estimate, Mixed.unique.
  destruct (Mixed.len_seq sequence =? 1); [discriminate |].
  destruct ((1 <? _) && negb _); cbn [Mixed.bind].
  - intros E. now injection E.
  - destruct (len _ =? 1); discriminate.
Qed.

Lemma mixed_raises_validation (g : globals) (sequence : Mixed.pyseq)
  (override : bool) :
  (exists msg, Mixed.erLZ78 g sequence override
                 = Mixed.Raise (Mixed.ValueError msg)) <->
  override = false /\
  (Mixed.size (Mixed.array sequence) < _MINIMUM_SAMPLE_SIZE_ g \/
   in_kinds (Mixed.kind (Mixed.dtype (Mixed.array sequence)))
     _UNSUPPORTED_KINDS_ = true).
Proof.
  unfold Mixed.erLZ78, Mixed.input_handling. destruct override; cbn [negb].
  - cbn [Mixed.bind]. split; [| intros [Hf _]; discriminate].
    intros [msg H]. apply mixed_estimate_raises in H. discriminate.
  - destruct (in_kinds _ _) eqn:Hk; cbn [Mixed.bind].
    + split; [intros _; auto | intros _; eexists; reflexivity].
    + destruct (Z.ltb_spec (Mixed.size (Mixed.array sequence))
                  (_MINIMUM_SAMPLE_SIZE_ g)); cbn [Mixed.bind].
      * split; [intros _; auto | intros _; eexists; reflexivity].
      * split.
        -- intros [msg E]. apply mixed_estimate_raises in E. discriminate.
        -- intros [_ [Hlt | Hd]]; [lia | discriminate].
Qed.

(** Where [unique] has compared the items and returned, no item is [None]:
    no scalar of the loop is a plain object, and the buffer never becomes
    an array of objects. *)
Lemma unique_returns_no_object (sequence : Mixed.pyseq)
  (alpha : list Mixed.pyobj) :
  1 < Mixed.len_seq sequence ->
  Mixed.unique (Mixed.array sequence) = Mixed.Return alpha ->
  Forall (fun number => fst number <> Mixed.object_) (Mixed.scalars sequence).
Proof.
  intros Hn. unfold Mixed.unique.
  assert (Hlen : len (Mixed.data (Mixed.array sequence))
                 = Mixed.len_seq sequence).
  { destruct sequence as [l | a]; [| reflexivity].
    cbn [Mixed.array Mixed.data Mixed.len_seq]. unfold len.
    now rewrite length_map. }
  rewrite Hlen. apply Z.ltb_lt in Hn. rewrite Hn. cbn [andb].
  destruct (Mixed.orderable _) eqn:Ho; [intros _ | discriminate].
  assert (Hnone : forall o, In o (Mixed.data (Mixed.array sequence)) ->
                            o <> Mixed.PNone).
  { intros o Hin ->. unfold Mixed.orderable in Ho.
    apply orb_prop in Ho. destruct Ho as [Ho | Ho];
      rewrite forallb_forall in Ho; specialize (Ho _ Hin); discriminate. }
  apply Forall_forall. intros [d o] Hin. cbn [fst].
  destruct sequence as [l | a]; cbn [Mixed.scalars] in Hin;
    apply in_map_iff in Hin; destruct Hin as [x [E Hx]];
    injection E as <- <-.
  - destruct x as [z | s |]; cbn; try discriminate.
    exfalso. apply (Hnone Mixed.PNone); [| reflexivity].
    cbn [Mixed.array Mixed.data]. apply in_map_iff.
    exists Mixed.PNone. split; [| exact Hx].
    unfold Mixed.cast. now destruct (Mixed.list_dtype l).
  - specialize (Hnone x Hx). cbn [Mixed.array] in Hnone.
    unfold Mixed.item_dtype.
    destruct (Mixed.dtype a); try discriminate;
      destruct x; cbn; try discriminate; congruence.
Qed.

Lemma result_type_object (a b : Mixed.dtype_t) :
  a <> Mixed.object_ -> b <> Mixed.object_ ->
  Mixed.result_type a b <> Mixed.object_.
Proof. destruct a, b; cbn; congruence. Qed.

Lemma for_loop_no_object (n : Z)
  (its : list (Z * (Mixed.dtype_t * Mixed.pyobj))) :
  forall s : Mixed.loop_state,
    Forall (fun number => fst number <> Mixed.object_) (map snd its) ->
    Mixed.dtype (Mixed.current_seq s) <> Mixed.object_ ->
    Mixed.dtype (Mixed.current_seq (Mixed.for_loop n its s))
      <> Mixed.object_.
Proof.
  induction its as [| [idx number] rest IH]; intros s Hits Hs;
    cbn [Mixed.for_loop]; [exact Hs |].
  cbn [map snd] in Hits. inversion Hits as [| x xs Hnum Hrest]; subst.
  unfold Mixed.loop_body.
  destruct (contains _ (Mixed.table s)).
  - destruct (idx =? n - 1).
    + cbn [Mixed.current_seq Mixed.append Mixed.dtype].
      now apply result_type_object.
    + apply IH; [exact Hrest |].
      cbn [Mixed.current_seq Mixed.append Mixed.dtype].
      now apply result_type_object.
  - apply IH; [exact Hrest |]. cbn. discriminate.
Qed.

(** A list of ints, or of strings, and the array it is cast to yield the
    same scalars. *)
Lemma uniform_cast (l : list Mixed.pyobj) :
  Mixed.orderable l = true ->
  l <> [] ->
  Mixed.data (Mixed.array (Mixed.PyList l)) = l /\
  Mixed.scalars (Mixed.PyArray (Mixed.array (Mixed.PyList l)))
    = Mixed.scalars (Mixed.PyList l).
Proof.
  intros Ho Hne. destruct l as [| o l]; [congruence |].
  unfold Mixed.orderable in Ho. apply orb_prop in Ho.
  cbn [Mixed.scalars Mixed.array Mixed.dtype Mixed.data].
  destruct Ho as [Hi | Hs].
  - assert (E : Mixed.list_dtype (o :: l) = Mixed.int64).
    { cbn [forallb] in Hi. apply andb_prop in Hi. destruct Hi as [Ho Hl].
      destruct o; try discriminate. cbn [Mixed.list_dtype Mixed.scalar_dtype].
      now apply fold_result_type_ints. }
    rewrite E.
    rewrite map_ext with (g := fun x => x) by reflexivity. rewrite map_id.
    split; [reflexivity |].
    apply map_ext_in. intros x Hx. rewrite forallb_forall in Hi.
    specialize (Hi x Hx). now destruct x.
  - assert (E : exists m, Mixed.list_dtype (o :: l) = Mixed.unicode m).
    { cbn [forallb] in Hs. apply andb_prop in Hs. destruct Hs as [Ho Hl].
      destruct o; try discriminate. cbn [Mixed.list_dtype Mixed.scalar_dtype].
      now apply fold_result_type_strs. }
    destruct E as [m E]. rewrite E.
    assert (Hid : map (fun x => Mixed.cast (Mixed.scalar_dtype x)
                                  (Mixed.unicode m) x) (o :: l) = o :: l).
    { rewrite <- (map_id (o :: l)) at 2. apply map_ext_in.
      intros x Hx. rewrite forallb_forall in Hs. specialize (Hs x Hx).
      now destruct x. }
    rewrite Hid. split; reflexivity.
Qed.

Lemma mixed_estimate_array (sequence : Mixed.pyseq) :
  Mixed.uniform sequence = true ->
  Mixed.estimate (Mixed.PyArray (Mixed.array sequence))
    = Mixed.estimate sequence.
Proof.
  destruct sequence as [l | a]; [| reflexivity].
  cbn [Mixed.uniform]. intros Hu.
  apply andb_prop in Hu. destruct Hu as [Ho _].
  destruct l as [| o l]; [reflexivity |].
  set (l' := o :: l) in *.
  assert (Hne : l' <> []) by discriminate.
  clearbody l'. clear o l. rename l' into l.
  destruct (uniform_cast l Ho Hne) as [Hd Hs].
  unfold Mixed.estimate, Mixed.final_table. rewrite Hs.
  change (Mixed.array (Mixed.PyArray (Mixed.array (Mixed.PyList l))))
    with (Mixed.array (Mixed.PyList l)).
  change (Mixed.len_seq (Mixed.PyArray (Mixed.array (Mixed.PyList l))))
    with (len (Mixed.data (Mixed.array (Mixed.PyList l)))).
  now rewrite Hd.
Qed.

(** The value line 100 computes, once the table is known. *)
Lemma mixed_estimate_formula (sequence : Mixed.pyseq)
  (alpha : list Mixed.pyobj) (c : Z) :
  2 <= Mixed.len_seq sequence ->
  Mixed.unique (Mixed.array sequence) = Mixed.Return alpha ->
  2 <= len alpha ->
  len (Mixed.final_table sequence) = c ->
  1 <= c ->
  Mixed.estimate sequence =
    Mixed.Return (PyFloat (np.Finite
      (formula c (len alpha) (Mixed.len_seq sequence)))).
Proof.
  intros Hn Hu Ha Hc Hc1. unfold Mixed.estimate.
  destruct (Z.eqb_spec (Mixed.len_seq sequence) 1); [lia |].
  rewrite Hu. cbn [Mixed.bind].
  destruct (Z.eqb_spec (len alpha) 1); [lia |].
  rewrite Hc. rewrite !log2_pos_arg by lia.
  cbn [np.ceil np.add np.mul_int np.div_int].
  destruct (Z.eqb_spec (Mixed.len_seq sequence) 0); [lia | reflexivity].
Qed.

(** The estimate grows with the phrase count. *)
Lemma formula_increasing (c c' a n : Z) :
  1 <= c < c' -> 1 <= a -> 1 <= n ->
  (formula c a n < formula c' a n)%R.
Proof.
  intros [Hc Hcc] Ha Hn. unfold formula. rewrite adl_log2_up by lia.
  assert (HL : (0 <= IZR (Z.log2_up a))%R).
  { apply IZR_le. apply Z.log2_up_nonneg. }
  pose proof (log2_IZR_nonneg c Hc) as Hlog.
  assert (Hmono : (ln (IZR c) / ln 2 <= ln (IZR c') / ln 2)%R).
  { pose proof ln2_pos as H2. unfold Rdiv.
    apply Rmult_le_compat_r; [left; now apply Rinv_0_lt_compat |].
    apply ln_le_mono; [apply IZR_lt; lia | apply IZR_le; lia]. }
  assert (Hc1 : (1 <= IZR c)%R) by (apply IZR_le; lia).
  assert (Hcc' : (IZR c + 1 <= IZR c')%R).
  { rewrite <- plus_IZR. apply IZR_le. lia. }
  assert (Hn0 : (0 < IZR n)%R) by (apply IZR_lt; lia).
  assert (Hpos : (0 < ln (IZR c') / ln 2)%R).
  { pose proof ln2_pos as H2. unfold Rdiv.
    apply Rmult_lt_0_compat; [| now apply Rinv_0_lt_compat].
    rewrite <- ln_1. apply ln_increasing; [lra | apply IZR_lt; lia]. }
  unfold Rdiv at 1 3.
  apply Rmult_lt_compat_r; [now apply Rinv_0_lt_compat |].
  set (x := (ln (IZR c) / ln 2)%R) in *.
  set (y := (ln (IZR c') / ln 2)%R) in *.
  set (A := IZR (Z.log2_up a)) in *.
  assert (H1 : (IZR c * (x + A) <= IZR c * (y + A))%R)
    by (apply Rmult_le_compat_l; lra).
  assert (H2 : (IZR c * (y + A) < IZR c' * (y + A))%R)
    by (apply Rmult_lt_compat_r; lra).
  lra.
Qed.

End MixedLists.

(** ** The two models agree on the lists of ints *)

Section Agreement.

Lemma tobytes_mixed_array (a : np.ndarray) :
  int64_or_float64 (np.dtype a) ->
  Mixed.tobytes (mixed_array a) = np.tobytes a.
Proof.
  destruct a as [d ds]. cbn [np.dtype]. unfold Mixed.tobytes, np.tobytes.
  cbn [mixed_array Mixed.dtype Mixed.data np.dtype np.data].
  intros [-> | ->]; induction ds as [| z ds IH];
    cbn [map flat_map]; try reflexivity; now rewrite IH.
Qed.

Lemma append_mixed_array (a : np.ndarray) (item : np.dtype_t) (z : Z) :
  int64_or_float64 (np.dtype a) ->
  int64_or_float64 item ->
  Mixed.append (mixed_array a) (mixed_dtype item, Mixed.PInt z)
    = mixed_array (np.append a item z) /\
  int64_or_float64 (np.dtype (np.append a item z)).
Proof.
  destruct a as [d ds]. cbn [np.dtype].
  unfold Mixed.append, mixed_array, np.append.
  cbn [np.dtype np.data Mixed.dtype Mixed.data fst snd].
  rewrite map_app, map_map. cbn [map].
  intros [-> | ->] [-> | ->]; (split; [| (now left) || (now right)]);
    cbn; (rewrite map_ext with (g := Mixed.PInt) by reflexivity);
    reflexivity.
Qed.

Lemma loop_body_agree (item : np.dtype_t) (n : Z) (ms : Mixed.loop_state)
  (s : loop_state) (idx z : Z) :
  int64_or_float64 item ->
  agree ms s ->
  match Mixed.loop_body n ms idx (mixed_dtype item, Mixed.PInt z),
        loop_body item n s idx z with
  | Mixed.Next ms', Next s' => agree ms' s'
  | Mixed.Break ms', Break s' => agree ms' s'
  | _, _ => False
  end.
Proof.
  intros Hi (Ht & Hc & Hd). unfold Mixed.loop_body, loop_body.
  destruct (append_mixed_array (current_seq s) item z Hd Hi) as [Ha Hd'].
  rewrite Hc, Ha, Ht, (tobytes_mixed_array _ Hd').
  destruct (contains _ (table s)).
  - destruct (idx =? n - 1); repeat split; assumption.
  - repeat split; now right.
Qed.

Lemma for_loop_agree (item : np.dtype_t) (n : Z) (its : list (Z * Z)) :
  int64_or_float64 item ->
  forall (ms : Mixed.loop_state) (s : loop_state),
    agree ms s ->
    agree
      (Mixed.for_loop n
         (map (fun p => (fst p, (mixed_dtype item, Mixed.PInt (snd p)))) its)
         ms)
      (for_loop item n its s).
Proof.
  intros Hi. induction its as [| [idx z] rest IH]; intros ms s H;
    cbn [map Mixed.for_loop for_loop fst snd]; [exact H |].
  pose proof (loop_body_agree item n ms s idx z Hi H) as Hb.
  destruct (Mixed.loop_body _ _ _ _), (loop_body _ _ _ _ _);
    try contradiction; [now apply IH | exact Hb].
Qed.

Lemma enumerate_from_map {A B : Type} (f : A -> B) (l : list A) (i : Z) :
  enumerate_from i (map f l)
    = map (fun p => (fst p, f (snd p))) (enumerate_from i l).
Proof.
  revert i. induction l as [| x l IH]; intros i; cbn; [reflexivity |].
  now rewrite IH.
Qed.

Lemma item_dtype_embeddable (sequence : pyseq) :
  embeddable sequence -> int64_or_float64 (item_dtype sequence).
Proof.
  destruct sequence as [[| x xs] | a]; cbn [embeddable item_dtype];
    [now left | | trivial].
  cbn [forallb]. intros H. apply andb_prop in H. destruct H as [Hx _].
  unfold scalar_dtype. rewrite Hx. now left.
Qed.

Lemma scalars_mixed_of (sequence : pyseq) :
  embeddable sequence ->
  Mixed.scalars (mixed_of sequence)
    = map (fun z => (mixed_dtype (item_dtype sequence), Mixed.PInt z))
        (items sequence).
Proof.
  destruct sequence as [xs | a];
    cbn [embeddable mixed_of Mixed.scalars items item_dtype].
  - intros H. rewrite map_map. apply map_ext_in. intros z Hz.
    destruct xs as [| x xs]; [destruct Hz |].
    cbn [forallb] in H. apply andb_prop in H. destruct H as [Hx _].
    unfold scalar_dtype. now rewrite Hx.
  - intros H. cbn [mixed_array Mixed.dtype Mixed.data].
    rewrite map_map. apply map_ext. intros z.
    destruct H as [-> | ->]; reflexivity.
Qed.

Lemma len_seq_mixed_of (sequence : pyseq) :
  Mixed.len_seq (mixed_of sequence) = len_seq sequence.
Proof.
  destruct sequence as [xs | a];
    cbn [mixed_of Mixed.len_seq mixed_array Mixed.data];
    unfold len_seq, len; cbn [items]; now rewrite length_map.
Qed.

Lemma final_table_mixed_of (sequence : pyseq) :
  embeddable sequence ->
  Mixed.final_table (mixed_of sequence) = final_table sequence.
Proof.
  intros H. unfold Mixed.final_table, final_table, enumerate.
  rewrite (scalars_mixed_of _ H), enumerate_from_map, len_seq_mixed_of.
  apply for_loop_agree; [now apply item_dtype_embeddable |].
  repeat split. now left.
Qed.

Lemma data_array_mixed_of (sequence : pyseq) :
  embeddable sequence ->
  Mixed.data (Mixed.array (mixed_of sequence))
    = map Mixed.PInt (items sequence).
Proof.
  destruct sequence as [xs | a]; [| reflexivity].
  cbn [embeddable mixed_of Mixed.array Mixed.data items]. intros _.
  assert (E : Mixed.list_dtype (map Mixed.PInt xs) = Mixed.float64 \/
              Mixed.list_dtype (map Mixed.PInt xs) = Mixed.int64).
  { destruct xs as [| x xs]; [now left | right].
    cbn [map Mixed.list_dtype Mixed.scalar_dtype].
    apply fold_result_type_ints. apply forallb_forall.
    intros o Ho. apply in_map_iff in Ho. now destruct Ho as [z [<- _]]. }
  rewrite map_map. apply map_ext. intros z.
  destruct E as [-> | ->]; reflexivity.
Qed.

Lemma nodup_map_PInt (xs : list Z) :
  List.length (nodup Mixed.pyobj_eq_dec (map Mixed.PInt xs))
    = List.length (nodup Z.eq_dec xs).
Proof.
  induction xs as [| x xs IH]; [reflexivity |]. cbn [map nodup].
  destruct (in_dec Mixed.pyobj_eq_dec (Mixed.PInt x) (map Mixed.PInt xs))
    as [Hin | Hin], (in_dec Z.eq_dec x xs) as [Hin' | Hin'];
    cbn [List.length]; try (now rewrite IH).
  - exfalso. apply Hin'. apply in_map_iff in Hin.
    destruct Hin as [y [E Hy]]. now injection E as ->.
  - exfalso. apply Hin. now apply in_map.
Qed.

Lemma unique_mixed_of (sequence : pyseq) :
  embeddable sequence ->
  exists alpha,
    Mixed.unique (Mixed.array (mixed_of sequence)) = Mixed.Return alpha /\
    len alpha = len (np.unique (np.data (array sequence))).
Proof.
  intros H. unfold Mixed.unique. rewrite (data_array_mixed_of _ H).
  assert (Ho : Mixed.orderable (map Mixed.PInt (items sequence)) = true).
  { unfold Mixed.orderable. apply orb_true_intro. left.
    apply forallb_forall. intros o Ho. apply in_map_iff in Ho.
    now destruct Ho as [z [<- _]]. }
  rewrite Ho, andb_false_r. eexists. split; [reflexivity |].
  rewrite items_array, len_unique. unfold alphabet_size, alphabet, len.
  now rewrite nodup_map_PInt.
Qed.

(** On a list of ints, and on an int64 or float64 array, the code after
    the input handling computes in the second model what it computes in
    the first. *)
Lemma estimate_mixed_of (sequence : pyseq) :
  embeddable sequence ->
  Mixed.estimate (mixed_of sequence) = Mixed.Return (estimate sequence).
Proof.
  intros H. unfold Mixed.estimate, estimate.
  rewrite len_seq_mixed_of.
  destruct (len_seq sequence =? 1); [reflexivity |].
  destruct (unique_mixed_of _ H) as [alpha [-> Hlen]]. cbn [Mixed.bind].
  rewrite Hlen, (final_table_mixed_of _ H).
  now destruct (len _ =? 1).
Qed.

Lemma kind_array_mixed_of (sequence : pyseq) :
  embeddable sequence ->
  Mixed.kind (Mixed.dtype (Mixed.array (mixed_of sequence)))
    = np.kind (np.dtype (array sequence)).
Proof.
  destruct sequence as [[| x xs] | [d ds]];
    cbn [embeddable mixed_of Mixed.array array Mixed.dtype np.dtype
         mixed_array];
    [reflexivity | | intros [-> | ->]; reflexivity].
  intros H. unfold list_dtype. rewrite H.
  change (map Mixed.PInt (x :: xs)) with (Mixed.PInt x :: map Mixed.PInt xs).
  cbn [Mixed.list_dtype Mixed.scalar_dtype].
  rewrite fold_result_type_ints; [reflexivity |].
  apply forallb_forall. intros o Ho. apply in_map_iff in Ho.
  now destruct Ho as [z [<- _]].
Qed.

Lemma array_mixed_of (sequence : pyseq) :
  embeddable sequence ->
  in_kinds (np.kind (np.dtype (array sequence))) _UNSUPPORTED_KINDS_ = false ->
  Mixed.array (mixed_of sequence) = mixed_array (array sequence).
Proof.
  intros H Hk. pose proof (kind_array_mixed_of _ H) as Hkind.
  pose proof (data_array_mixed_of _ H) as Hdata.
  destruct (Mixed.array (mixed_of sequence)) as [d ds] eqn:E.
  cbn [Mixed.dtype Mixed.data] in *. unfold mixed_array.
  rewrite items_array, Hdata. f_equal.
  destruct sequence as [[| x xs] | a]; cbn [array np.dtype] in *.
  - discriminate Hk.
  - unfold list_dtype in *. cbn [embeddable] in H. rewrite H in *.
    destruct d; cbn in Hkind; try discriminate. reflexivity.
  - injection E as <- _. cbn [mixed_of mixed_array Mixed.dtype].
    reflexivity.
Qed.

(** The lists of ints of the first model are the lists of ints of the
    second: [erLZ78] returns, and raises, the same in both. *)
Lemma erLZ78_mixed_of (g : globals) (sequence : pyseq) (override : bool) :
  embeddable sequence ->
  Mixed.erLZ78 g (mixed_of sequence) override
    = mixed_outcome (erLZ78 g sequence override).
Proof.
  intros H. unfold Mixed.erLZ78, erLZ78.
  destruct override.
  - cbn [Mixed.input_handling input_handling negb Mixed.bind bind
         mixed_outcome].
    now apply estimate_mixed_of.
  - rewrite input_handling_checked. unfold Mixed.input_handling.
    cbn [negb]. rewrite (kind_array_mixed_of _ H).
    destruct (in_kinds _ _) eqn:Hk; [reflexivity |].
    assert (Hsize : Mixed.size (Mixed.array (mixed_of sequence))
                    = np.size (array sequence)).
    { unfold Mixed.size, np.size. rewrite (data_array_mixed_of _ H).
      rewrite items_array. unfold len. now rewrite length_map. }
    rewrite Hsize.
    destruct (np.size (array sequence) <? _MINIMUM_SAMPLE_SIZE_ g);
      [reflexivity |].
    cbn [Mixed.bind bind mixed_outcome].
    rewrite (array_mixed_of _ H Hk).
    change (Mixed.PyArray (mixed_array (array sequence)))
      with (mixed_of (PyArray (array sequence))).
    apply estimate_mixed_of. cbn [embeddable].
    destruct sequence as [[| x xs] | a]; cbn [array np.dtype] in *.
    + discriminate Hk.
    + unfold list_dtype. cbn [embeddable] in H. rewrite H. now left.
    + exact H.
Qed.

End Agreement.

(** * The claims *)



(** C3. [erLZ78] raises a [ValueError] exactly when the input check is not
    overridden and the sequence is shorter than the configured minimum or its
    dtype kind is one of the unsupported kinds; an error it raises is the one
    of the input handling, and no estimate is returned then. *)
Theorem erLZ78_raises_validation (g : globals) (sequence : pyseq)
  (override : bool) :
  ((exists msg, erLZ78 g sequence override = Raise (ValueError msg)) <->
   override = false /\
   (np.size (array sequence) < _MINIMUM_SAMPLE_SIZE_ g \/
    in_kinds (np.kind (np.dtype (array sequence))) _UNSUPPORTED_KINDS_ = true))
  /\
  (forall e, erLZ78 g sequence override = Raise e ->
     input_handling g sequence override = Raise e /\
     forall v, erLZ78 g sequence override <> Return v).
Proof.
  split.
  - rewrite <- erLZ78_raises_iff. split.
    + intros [msg H]. now exists (ValueError msg).
    + intros [[msg] H]. now exists msg.
  - intros e He. split.
    + unfold erLZ78 in He.
      destruct (input_handling g sequence override);
        [discriminate | cbn in He; congruence].
    + intros v Hv. congruence.
Qed.

(** C4 (as amended). For every sequence of length 1 on which the input check
    is overridden or passes, [erLZ78] returns the int 0. *)
Theorem erLZ78_length_one (g : globals) (sequence : pyseq) (override : bool) :
  len_seq sequence = 1 ->
  validated g sequence override ->
  erLZ78 g sequence override = Return (PyInt 0).
Proof.
  intros Hn Hv. rewrite (erLZ78_validated g sequence override Hv).
  now rewrite estimate_single.
Qed.

Lemma erLZ78_length_one_witness :
  erLZ78 module_globals (PyList [7]) true = Return (PyInt 0).
Proof.
  apply (erLZ78_length_one module_globals (PyList [7]) true).
  - reflexivity.
  - left. reflexivity.
Defined.

(** C4 as stated fails: with the default minimum of 5 and the input check
    not overridden, a sequence of length 1 is rejected. *)
Lemma erLZ78_length_one_rejected :
  len_seq (PyList [7]) = 1 /\
  erLZ78 module_globals (PyList [7]) false <> Return (PyInt 0).
Proof.
  split; [reflexivity |]. intros H. vm_compute in H. discriminate H.
Qed.






(** C7. At every step of the parsing loop the keys of the phrase table are
    unique, the seed entry maps the empty phrase to 0 and the phrase stored
    k-th (counting the seed as the 0th) has the value k; and every phrase
    insertion stores a key that is not yet present under the current size of
    the table. *)
Theorem phrase_table_indexed (sequence : pyseq) :
  Forall (fun c => table_invariant (table (state_of c)))
    (Next initial_state ::
     loop_trace (item_dtype sequence) (len_seq sequence)
       (enumerate (items sequence)) initial_state)
  /\
  table_steps (table initial_state)
    (loop_trace (item_dtype sequence) (len_seq sequence)
       (enumerate (items sequence)) initial_state).
Proof.
  destruct initial_state_invariant as [Hinv Hp].
  destruct (loop_trace_invariant (item_dtype sequence) (len_seq sequence)
              (enumerate (items sequence)) initial_state Hinv Hp)
    as [Hall Hsteps].
  split; [constructor; assumption | exact Hsteps].
Qed.

(** C8 (as amended).  On every sequence of ints and strings (a list that
    holds nothing else, or an array of ints, of floats or of strings), of
    any length, the code after the input handling raises nothing and
    returns a value; so does [erLZ78] once the input check is overridden or
    passed. *)
Theorem estimator_total (g : globals) (sequence : Mixed.pyseq)
  (override : bool) :
  Mixed.plain sequence = true ->
  (exists v, Mixed.estimate sequence = Mixed.Return v) /\
  (override = true \/
   (in_kinds (Mixed.kind (Mixed.dtype (Mixed.array sequence)))
      _UNSUPPORTED_KINDS_ = false /\
    _MINIMUM_SAMPLE_SIZE_ g <= Mixed.size (Mixed.array sequence)) ->
   exists v, Mixed.erLZ78 g sequence override = Mixed.Return v).
Proof.
  intros Hp. split; [now apply mixed_estimate_plain |].
  intros Hv. unfold Mixed.erLZ78, Mixed.input_handling.
  destruct override; cbn [negb Mixed.bind];
    [now apply mixed_estimate_plain |].
  destruct Hv as [Ho | [Hkind Hsize]]; [discriminate |].
  rewrite Hkind. apply Z.ltb_ge in Hsize. rewrite Hsize. cbn [Mixed.bind].
  apply mixed_estimate_plain. now apply array_plain.
Qed.

Lemma estimator_total_witness :
  (exists v, Mixed.estimate Mixed.digits = Mixed.Return v) /\
  (false = true \/
   (in_kinds (Mixed.kind (Mixed.dtype (Mixed.array Mixed.digits)))
      _UNSUPPORTED_KINDS_ = false /\
    _MINIMUM_SAMPLE_SIZE_ module_globals
      <= Mixed.size (Mixed.array Mixed.digits)) ->
   exists v, Mixed.erLZ78 module_globals Mixed.digits false = Mixed.Return v).
Proof.
  apply (estimator_total module_globals Mixed.digits false). reflexivity.
Defined.

(** C8 as stated fails: [None] and [1] have equality and a hash, yet on the
    list of the two the code after the input handling raises: [unique]
    sorts the items and cannot compare them. *)
Lemma unique_raises_on_none :
  1 <= Mixed.len_seq Mixed.none_and_one /\
  Mixed.estimate Mixed.none_and_one = Mixed.Raise Mixed.TypeError /\
  Mixed.erLZ78 module_globals Mixed.none_and_one true
    = Mixed.Raise Mixed.TypeError.
Proof.
  split; [vm_compute; discriminate |]. split; reflexivity.
Qed.

(** C2, evaluated on the code.  The sequences 1,1,0,0 and 1,1,0,1,0 parse
    into the LZ78 phrases 1 | 10 | 0 (no trailing repeat) and 1 | 10 (then a
    trailing repeat of 10), so the expected phrase counts are 3 + 1 and
    2 + 2.  The loop keys its first phrase by int64 bytes and every later one
    by float64 bytes, takes the second 1 for a new phrase, and leaves tables
    of 5 entries in both cases. *)
Theorem leading_symbol_counted_twice :
  (lz78_parse [] [] [1; 1; 0; 0] = ([[1]; [1; 0]; [0]], []) /\
   expected_phrase_count [1; 1; 0; 0] = 4 /\
   len (final_table (PyList [1; 1; 0; 0])) = 5) /\
  (lz78_parse [] [] [1; 1; 0; 1; 0] = ([[1]; [1; 0]], [1; 0]) /\
   expected_phrase_count [1; 1; 0; 1; 0] = 4 /\
   len (final_table (PyList [1; 1; 0; 1; 0])) = 5 /\
   map fst (final_table (PyList [1; 1; 0; 1; 0])) =
     [KBytes [];
      KBytes [1; 0; 0; 0; 0; 0; 0; 0];
      KBytes [0; 0; 0; 0; 0; 0; 240; 63];
      KBytes [0; 0; 0; 0; 0; 0; 0; 0];
      KBytes [0; 0; 0; 0; 0; 0; 240; 63; 0; 0; 0; 0; 0; 0; 0; 0]]).
Proof. repeat split; vm_compute; reflexivity. Qed.

(** C9 (as amended).  After [set_minimum_size k] the threshold is [k] and the
    stored error carries the template filled with [k].  A later call without
    override on a sequence of a supported kind raises that error when the
    sequence is shorter than [k] and returns the estimate when its length is
    at least [k]; on a sequence of an unsupported kind, the empty list among
    them, it raises the error about the kind, whatever the length and the
    threshold.  The message determines the threshold: two thresholds with
    the same message are equal. *)
Theorem set_minimum_size_enforced (k : Z) (g : globals) (sequence : pyseq) :
  _MINIMUM_SAMPLE_SIZE_ (set_minimum_size k g) = k /\
  InputError (set_minimum_size k g) =
    ValueError (format _INPUT_ERROR_TEMPLATE_ (str k)) /\
  (in_kinds (np.kind (np.dtype (array sequence))) _UNSUPPORTED_KINDS_ = false ->
   len_seq sequence < k ->
   erLZ78 (set_minimum_size k g) sequence false =
     Raise (ValueError (format _INPUT_ERROR_TEMPLATE_ (str k)))) /\
  (in_kinds (np.kind (np.dtype (array sequence))) _UNSUPPORTED_KINDS_ = false ->
   k <= len_seq sequence ->
   erLZ78 (set_minimum_size k g) sequence false = Return (estimate sequence)) /\
  (in_kinds (np.kind (np.dtype (array sequence))) _UNSUPPORTED_KINDS_ = true ->
   erLZ78 (set_minimum_size k g) sequence false =
     Raise (ValueError (format _UNSUPPORTED_KIND_TEMPLATE_
              (String (np.kind (np.dtype (array sequence))) EmptyString)))) /\
  (forall k', InputError (set_minimum_size k' g) =
                InputError (set_minimum_size k g) -> k' = k).
Proof.
  split; [reflexivity |]. split; [reflexivity |].
  split; [| split; [| split; [| intros k'; apply input_error_message_inj]]].
  - intros Hkind Hlt. unfold erLZ78. rewrite input_handling_checked, Hkind.
    rewrite size_array. cbn [_MINIMUM_SAMPLE_SIZE_ set_minimum_size].
    apply Z.ltb_lt in Hlt. now rewrite Hlt.
  - intros Hkind Hle. apply erLZ78_validated. right. split; [exact Hkind |].
    now rewrite size_array.
  - intros Hkind. unfold erLZ78. now rewrite input_handling_checked, Hkind.
Qed.

Lemma set_minimum_size_enforced_witness :
  erLZ78 (set_minimum_size 3 module_globals) (PyList [0; 1]) false =
    Raise (ValueError (format _INPUT_ERROR_TEMPLATE_ (str 3))) /\
  erLZ78 (set_minimum_size 2 module_globals) (PyList [0; 1]) false =
    Return (estimate (PyList [0; 1])) /\
  erLZ78 (set_minimum_size 0 module_globals) (PyList []) false =
    Raise (ValueError (format _UNSUPPORTED_KIND_TEMPLATE_ "f")).
Proof.
  split; [| split].
  - destruct (set_minimum_size_enforced 3 module_globals (PyList [0; 1]))
      as (_ & _ & H & _).
    apply H; [reflexivity | vm_compute; reflexivity].
  - destruct (set_minimum_size_enforced 2 module_globals (PyList [0; 1]))
      as (_ & _ & _ & H & _).
    apply H; [reflexivity | vm_compute; discriminate].
  - destruct (set_minimum_size_enforced 0 module_globals (PyList []))
      as (_ & _ & _ & _ & H & _).
    apply H. reflexivity.
Defined.

(** C9 as stated fails: an array of floats is rejected for its kind before
    its size is looked at, so a sequence shorter than the new threshold is
    rejected with the message about the kind, which does not mention the
    threshold. *)
Lemma short_float_array_kind_message :
  len_seq (PyArray (np.mk_ndarray np.float64 [1; 2; 3])) < 10 /\
  erLZ78 (set_minimum_size 10 module_globals)
    (PyArray (np.mk_ndarray np.float64 [1; 2; 3])) false =
    Raise (ValueError (format _UNSUPPORTED_KIND_TEMPLATE_ "f")) /\
  erLZ78 (set_minimum_size 10 module_globals)
    (PyArray (np.mk_ndarray np.float64 [1; 2; 3])) false <>
    Raise (ValueError (format _INPUT_ERROR_TEMPLATE_ (str 10))).
Proof.
  split; [reflexivity |]. split; [reflexivity |].
  intros H. vm_compute in H. discriminate H.
Qed.

(** C10 (as amended).  For every sequence whose items are all of one type
    (a list of ints, a list of strings, or an array) and that passes the
    input check (supported kind, size at least the configured minimum),
    [erLZ78] returns the same with the check overridden as without. *)
Theorem override_same_result (g : globals) (sequence : Mixed.pyseq) :
  Mixed.uniform sequence = true ->
  in_kinds (Mixed.kind (Mixed.dtype (Mixed.array sequence)))
    _UNSUPPORTED_KINDS_ = false ->
  _MINIMUM_SAMPLE_SIZE_ g <= Mixed.size (Mixed.array sequence) ->
  Mixed.erLZ78 g sequence true = Mixed.erLZ78 g sequence false.
Proof.
  intros Hu Hkind Hsize. unfold Mixed.erLZ78, Mixed.input_handling.
  cbn [negb]. rewrite Hkind. apply Z.ltb_ge in Hsize. rewrite Hsize.
  cbn [Mixed.bind]. symmetry. now apply mixed_estimate_array.
Qed.

Lemma override_same_result_witness :
  Mixed.erLZ78 module_globals
    (Mixed.PyList [Mixed.PStr "a"; Mixed.PStr "b"; Mixed.PStr "a";
                   Mixed.PStr "b"; Mixed.PStr "b"]) true =
  Mixed.erLZ78 module_globals
    (Mixed.PyList [Mixed.PStr "a"; Mixed.PStr "b"; Mixed.PStr "a";
                   Mixed.PStr "b"; Mixed.PStr "b"]) false.
Proof.
  apply (override_same_result module_globals
           (Mixed.PyList [Mixed.PStr "a"; Mixed.PStr "b"; Mixed.PStr "a";
                          Mixed.PStr "b"; Mixed.PStr "b"])).
  - reflexivity.
  - reflexivity.
  - vm_compute. discriminate.
Defined.

(** C10 as stated fails: the list ['2', 1, '1', 1, 1, '1'] passes the input
    check, which casts it to an array of six strings.  Without override the
    loop then meets the string '1' five times and leaves 5 entries; with
    override it meets both the int 1 and the string '1', keyed by different
    bytes, and leaves 6 entries: the two calls return different values. *)
Lemma override_changes_mixed_list :
  in_kinds (Mixed.kind (Mixed.dtype (Mixed.array Mixed.digits)))
    _UNSUPPORTED_KINDS_ = false /\
  _MINIMUM_SAMPLE_SIZE_ module_globals
    <= Mixed.size (Mixed.array Mixed.digits) /\
  Mixed.erLZ78 module_globals Mixed.digits false =
    Mixed.Return (PyFloat (np.Finite (formula 5 2 6))) /\
  Mixed.erLZ78 module_globals Mixed.digits true =
    Mixed.Return (PyFloat (np.Finite (formula 6 2 6))) /\
  Mixed.erLZ78 module_globals Mixed.digits true
    <> Mixed.erLZ78 module_globals Mixed.digits false.
Proof.
  assert (Hf : Mixed.erLZ78 module_globals Mixed.digits false =
               Mixed.Return (PyFloat (np.Finite (formula 5 2 6)))).
  { unfold Mixed.erLZ78.
    replace (Mixed.input_handling module_globals Mixed.digits false)
      with (Mixed.Return (Mixed.PyArray (Mixed.array Mixed.digits)))
      by (vm_compute; reflexivity).
    cbn [Mixed.bind].
    apply (mixed_estimate_formula (Mixed.PyArray (Mixed.array Mixed.digits))
             [Mixed.PStr "2"; Mixed.PStr "1"] 5);
      vm_compute; (reflexivity || discriminate). }
  assert (Ht : Mixed.erLZ78 module_globals Mixed.digits true =
               Mixed.Return (PyFloat (np.Finite (formula 6 2 6)))).
  { unfold Mixed.erLZ78, Mixed.input_handling. cbn [negb Mixed.bind].
    apply (mixed_estimate_formula Mixed.digits
             [Mixed.PStr "2"; Mixed.PStr "1"] 6);
      vm_compute; (reflexivity || discriminate). }
  split; [reflexivity |]. split; [vm_compute; discriminate |].
  split; [exact Hf |]. split; [exact Ht |].
  rewrite Hf, Ht. intros E. injection E as E.
  assert (H : (formula 5 2 6 < formula 6 2 6)%R)
    by (apply formula_increasing; lia).
  lra.
Qed.

(** * Further properties of the code *)

(** ** The size and the shape of the table *)

Section TableShape.

Variable item : np.dtype_t.
Variable n : Z.

Lemma setitem_length_le (d : dict) (k : key) (v : Z) :
  (List.length (setitem d k v) <= S (List.length d))%nat.
Proof.
  induction d as [| [k' v'] d IH]; cbn; [lia |].
  destruct (key_eqb k k'); cbn; lia.
Qed.

Lemma loop_body_grows_by_one (s : loop_state) (idx number : Z) :
  (List.length (table s)
     <= List.length (table (state_of (loop_body item n s idx number)))
     <= S (List.length (table s)))%nat.
Proof.
  unfold loop_body. destruct (contains _ (table s)).
  - destruct (idx =? n - 1); cbn [state_of table].
    + split; [apply setitem_length | apply setitem_length_le].
    + lia.
  - cbn [state_of table].
    split; [apply setitem_length | apply setitem_length_le].
Qed.

Lemma for_loop_length_bounds (its : list (Z * Z)) (s : loop_state) :
  (List.length (table s)
     <= List.length (table (for_loop item n its s))
     <= List.length (table s) + List.length its)%nat.
Proof.
  revert s. induction its as [| [idx number] rest IH]; intros s;
    cbn [for_loop List.length]; [lia |].
  pose proof (loop_body_grows_by_one s idx number) as Hb.
  destruct (loop_body item n s idx number) as [s' | s']; cbn [state_of] in Hb.
  - specialize (IH s'). lia.
  - lia.
Qed.

Lemma phrases_only_step (t : dict) (s' : loop_state) :
  phrases_only t -> table_step t (Next s') -> phrases_only (table s').
Proof.
  intros Hp [-> | [b [_ ->]]]; [exact Hp |].
  apply Forall_app. split; [exact Hp |].
  constructor; [now exists b | constructor].
Qed.

(** Over a non-empty rest of the input that ends at the last index, the loop
    adds at least one entry: a phrase, or the end-of-input entry. *)
Lemma for_loop_adds_entry (rest : list Z) :
  forall (x idx : Z) (s : loop_state),
    phrases_only (table s) ->
    idx + len (x :: rest) = n ->
    (S (List.length (table s))
       <= List.length
            (table (for_loop item n (enumerate_from idx (x :: rest)) s)))%nat.
Proof.
  induction rest as [| y rest IH]; intros x idx s Hp Hidx.
  - cbn [enumerate_from for_loop]. unfold loop_body.
    assert ((idx =? n - 1) = true) as ->
      by (apply Z.eqb_eq; unfold len in Hidx; cbn in Hidx; lia).
    destruct (contains _ (table s)) eqn:Hc; cbn [table].
    + rewrite setitem_fresh by now apply phrases_only_fresh_int.
      rewrite length_app. cbn. lia.
    + rewrite setitem_fresh by exact Hc. rewrite length_app. cbn. lia.
  - rewrite for_loop_cons.
    pose proof (loop_body_step item n s idx x Hp) as Hstep.
    pose proof (loop_body_grows_by_one s idx x) as Hgrow.
    assert (Hidx' : idx + 1 + len (y :: rest) = n).
    { unfold len in *. cbn [List.length] in *. lia. }
    destruct (loop_body item n s idx x) as [s' | s'] eqn:Hb;
      cbn [state_of] in Hgrow.
    + pose proof (IH y (idx + 1) s' (phrases_only_step _ _ Hp Hstep) Hidx').
      lia.
    + unfold loop_body in Hb.
      assert ((idx =? n - 1) = false) as Hne
        by (apply Z.eqb_neq; unfold len in Hidx; cbn [List.length] in Hidx;
            lia).
      rewrite Hne in Hb. destruct (contains _ (table s)); discriminate.
Qed.

(** The state the loop is left in after a non-empty rest of the input:
    either the buffer is empty and the table holds phrases only, or the
    buffer is pending and the table ends with the end-of-input entry, which
    is its only entry that is not a phrase. *)
Lemma for_loop_shape (rest : list Z) :
  forall (x idx : Z) (s : loop_state),
    phrases_only (table s) ->
    idx + len (x :: rest) = n ->
    let s' := for_loop item n (enumerate_from idx (x :: rest)) s in
    (np.data (current_seq s') = [] /\ phrases_only (table s')) \/
    (np.data (current_seq s') <> [] /\
     exists t, phrases_only t /\ table s' = t ++ [(KInt (-1), -1)]).
Proof.
  induction rest as [| y rest IH]; intros x idx s Hp Hidx.
  - cbn [enumerate_from for_loop]. unfold loop_body.
    assert ((idx =? n - 1) = true) as ->
      by (apply Z.eqb_eq; unfold len in Hidx; cbn in Hidx; lia).
    destruct (contains _ (table s)) eqn:Hc; cbn [table current_seq].
    + right. split.
      * cbn. intros E. now apply app_eq_nil in E as [_ E].
      * exists (table s). split; [exact Hp |].
        apply setitem_fresh. now apply phrases_only_fresh_int.
    + left. split; [reflexivity |].
      rewrite setitem_fresh by exact Hc.
      apply Forall_app. split; [exact Hp |].
      constructor; [now eexists | constructor].
  - cbv zeta. rewrite for_loop_cons.
    pose proof (loop_body_step item n s idx x Hp) as Hstep.
    assert (Hidx' : idx + 1 + len (y :: rest) = n).
    { unfold len in *. cbn [List.length] in *. lia. }
    destruct (loop_body item n s idx x) as [s' | s'] eqn:Hb.
    + exact (IH y (idx + 1) s' (phrases_only_step _ _ Hp Hstep) Hidx').
    + unfold loop_body in Hb.
      assert ((idx =? n - 1) = false) as Hne
        by (apply Z.eqb_neq; unfold len in Hidx; cbn [List.length] in Hidx;
            lia).
      rewrite Hne in Hb. destruct (contains _ (table s)); discriminate.
Qed.

End TableShape.

Lemma two_items (l : list Z) :
  2 <= len l -> exists s0 x rest, l = s0 :: x :: rest.
Proof.
  destruct l as [| s0 [| x rest]]; unfold len; cbn; try lia.
  intros _. now exists s0, x, rest.
Qed.

Lemma first_iteration_phrases_only (item : np.dtype_t) (s0 : Z) :
  phrases_only
    [(KBytes [], 0);
     (KBytes (np.item_bytes (np.result_type np.int64 item) s0), 1)].
Proof. repeat constructor; cbn; now eexists. Qed.

(** X1. A sequence of n >= 2 items leaves a table of at least 3 and at most
    n + 1 entries: the seed, the first symbol, at least one more entry, and
    never more than one entry per item. *)
Theorem phrase_count_bounds (sequence : pyseq) :
  2 <= len_seq sequence ->
  3 <= len (final_table sequence) <= len_seq sequence + 1.
Proof.
  intros Hn. destruct (two_items _ Hn) as (s0 & x & rest & Hitems).
  unfold final_table, len_seq in *. rewrite Hitems in *.
  unfold enumerate. split.
  - rewrite for_loop_cons, first_iteration.
    pose proof (for_loop_adds_entry (item_dtype sequence)
                  (len (s0 :: x :: rest)) rest x (0 + 1)
                  (mk_state
                     [(KBytes [], 0);
                      (KBytes (np.item_bytes
                                 (np.result_type np.int64 (item_dtype sequence))
                                 s0), 1)]
                     (np.array_empty np.float64))
                  (first_iteration_phrases_only _ _)) as H.
    cbn [table] in H. unfold len in *. cbn [List.length] in *. lia.
  - pose proof (for_loop_length_bounds (item_dtype sequence)
                  (len (s0 :: x :: rest))
                  (enumerate_from 0 (s0 :: x :: rest)) initial_state) as H.
    rewrite enumerate_from_length in H. cbn [table initial_state] in H.
    unfold len in *. cbn [List.length] in *. lia.
Qed.

Lemma phrase_count_bounds_witness :
  3 <= len (final_table alternating) <= len_seq alternating + 1.
Proof.
  apply (phrase_count_bounds alternating). vm_compute. discriminate.
Defined.

(** X2. When the loop is left, either the buffer is empty and every key of
    the table is a phrase key, or the buffer holds a pending phrase and the
    table ends with the end-of-input entry [-1 -> -1], which is then its only
    entry that is not a phrase. *)
Theorem final_state_shape (sequence : pyseq) :
  (np.data (current_seq (final_state sequence)) = [] /\
   phrases_only (table (final_state sequence))) \/
  (np.data (current_seq (final_state sequence)) <> [] /\
   exists t, phrases_only t /\
             table (final_state sequence) = t ++ [(KInt (-1), -1)]).
Proof.
  unfold final_state, enumerate, len_seq.
  destruct (items sequence) as [| x rest] eqn:Hitems.
  - left. split; [reflexivity | apply initial_state_invariant].
  - apply (for_loop_shape (item_dtype sequence) (len (x :: rest)) rest x 0
             initial_state).
    + apply initial_state_invariant.
    + lia.
Qed.

(** ** Every item is in one phrase *)

Section ByteBudget.

Variable item : np.dtype_t.
Variable n : Z.

Lemma item_bytes_length (d : np.dtype_t) (z : Z) :
  List.length (np.item_bytes d z) = np.itemsize d.
Proof.
  unfold np.item_bytes. destruct (Ascii.eqb (np.kind d) "f");
    apply le_bytes_length.
Qed.

Lemma tobytes_length (arr : np.ndarray) :
  len (np.tobytes arr) = Z.of_nat (np.itemsize (np.dtype arr)) * len (np.data arr).
Proof.
  unfold np.tobytes, len. induction (np.data arr) as [| x l IH];
    cbn [flat_map List.length]; [lia |].
  rewrite length_app, item_bytes_length. lia.
Qed.

Lemma key_bytes_app (t u : dict) :
  key_bytes (t ++ u) = key_bytes t + key_bytes u.
Proof.
  unfold key_bytes. induction t as [| e t IH]; cbn [app fold_right]; lia.
Qed.

Lemma key_bytes_setitem_present (d : dict) (k : key) (v : Z) :
  contains k d = true -> key_bytes (setitem d k v) = key_bytes d.
Proof.
  unfold key_bytes, contains.
  induction d as [| [k' v'] d IH]; cbn [existsb setitem fst]; [discriminate |].
  destruct (key_eqb k k'); cbn [orb fold_right fst]; [reflexivity |].
  intros H. rewrite (IH H). reflexivity.
Qed.

Lemma result_type_itemsize (a b : np.dtype_t) :
  np.itemsize a = 8%nat -> np.itemsize (np.result_type a b) = 8%nat.
Proof.
  intros Ha. unfold np.result_type.
  destruct (np.is_float a || np.is_float b || np.is_uint64 b);
    [reflexivity | exact Ha].
Qed.

Lemma for_loop_budget (rest : list Z) :
  forall (x idx : Z) (s : loop_state),
    budget idx s ->
    idx + len (x :: rest) = n ->
    budget n (for_loop item n (enumerate_from idx (x :: rest)) s).
Proof.
  induction rest as [| y rest IH]; intros x idx s [Hsz Hb] Hidx.
  - cbn [enumerate_from for_loop]. unfold loop_body.
    assert ((idx =? n - 1) = true) as ->
      by (apply Z.eqb_eq; unfold len in Hidx; cbn in Hidx; lia).
    assert (Hidx1 : n = idx + 1) by (unfold len in Hidx; cbn in Hidx; lia).
    pose proof (tobytes_length (np.append (current_seq s) item x)) as Hlen.
    cbn [np.append np.dtype np.data] in Hlen.
    rewrite (result_type_itemsize _ item Hsz) in Hlen.
    assert (Happ : len (np.data (current_seq s) ++ [x])
                   = len (np.data (current_seq s)) + 1).
    { unfold len. rewrite length_app. cbn. lia. }
    destruct (contains _ (table s)) eqn:Hc.
    + split; cbn [table current_seq np.append np.dtype np.data].
      * now apply result_type_itemsize.
      * destruct (contains (KInt (-1)) (table s)) eqn:He.
        -- rewrite key_bytes_setitem_present by exact He. lia.
        -- rewrite setitem_fresh by exact He. rewrite key_bytes_app.
           unfold key_bytes at 2. cbn [fold_right fst key_weight]. lia.
    + split; cbn [table current_seq np.array_empty np.dtype np.data];
        [reflexivity |].
      rewrite setitem_fresh by exact Hc. rewrite key_bytes_app.
      unfold key_bytes at 2. cbn [fold_right fst key_weight].
      change (len (@nil Z)) with 0. lia.
  - rewrite for_loop_cons.
    assert (Hidx' : idx + 1 + len (y :: rest) = n).
    { unfold len in *. cbn [List.length] in *. lia. }
    assert ((idx =? n - 1) = false) as Hne
      by (apply Z.eqb_neq; unfold len in Hidx; cbn [List.length] in Hidx; lia).
    pose proof (tobytes_length (np.append (current_seq s) item x)) as Hlen.
    cbn [np.append np.dtype np.data] in Hlen.
    rewrite (result_type_itemsize _ item Hsz) in Hlen.
    assert (Happ : len (np.data (current_seq s) ++ [x])
                   = len (np.data (current_seq s)) + 1).
    { unfold len. rewrite length_app. cbn. lia. }
    unfold loop_body. rewrite Hne.
    destruct (contains _ (table s)) eqn:Hc.
    + apply IH; [| exact Hidx'].
      split; cbn [table current_seq np.append np.dtype np.data].
      * now apply result_type_itemsize.
      * lia.
    + apply IH; [| exact Hidx'].
      split; cbn [table current_seq np.array_empty np.dtype np.data];
        [reflexivity |].
      rewrite setitem_fresh by exact Hc. rewrite key_bytes_app.
      unfold key_bytes at 2. cbn [fold_right fst key_weight].
      change (len (@nil Z)) with 0. lia.
Qed.

End ByteBudget.

(** X3. For a list of Python ints of either 64-bit range, and for an array
    of booleans, integers or floats of at most 8 bytes: when the loop is
    left, the keys of the table together with the pending buffer hold 8
    bytes for every item of the sequence: each item is in exactly one phrase
    key, or in the buffer the end-of-input entry stands for. *)
Theorem every_item_in_one_phrase (sequence : pyseq) :
  numeric_items sequence = true ->
  key_bytes (table (final_state sequence))
  + 8 * len (np.data (current_seq (final_state sequence)))
  = 8 * len_seq sequence.
Proof.
  intros _. unfold final_state, enumerate, len_seq.
  destruct (items sequence) as [| x rest] eqn:Hitems; [reflexivity |].
  apply (for_loop_budget (item_dtype sequence) (len (x :: rest)) rest x 0
           initial_state).
  - split; reflexivity.
  - lia.
Qed.

Lemma every_item_in_one_phrase_witness :
  key_bytes (table (final_state alternating))
  + 8 * len (np.data (current_seq (final_state alternating)))
  = 8 * len_seq alternating.
Proof. apply (every_item_in_one_phrase alternating). reflexivity. Defined.

(** ** The keys of the table against the specification's parser *)

Section Keys.

Variable item : np.dtype_t.
Variable n : Z.
Variable others : list key.
Hypothesis others_foreign : foreign_keys others.

(** From a state that stands for [(phrases, buffer)], the loop over the
    remaining items leaves the foreign keys, then the keys of the phrases of
    the parser in their order, then the end-of-input key when the parser ends
    with a pending buffer. *)
Lemma for_loop_keys (rest : list Z) :
  forall (x idx : Z) (s : loop_state) (phrases : list (list Z))
         (buffer : list Z),
    simulates others s phrases buffer ->
    Forall float_exact (x :: rest) ->
    idx + len (x :: rest) = n ->
    map fst (table (for_loop item n (enumerate_from idx (x :: rest)) s)) =
      others
      ++ phrase_keys (fst (lz78_parse phrases buffer (x :: rest)))
      ++ eoi_keys (snd (lz78_parse phrases buffer (x :: rest))).
Proof.
  induction rest as [| y rest IH]; intros x idx s phrases buffer Hsim Hex Hidx.
  - inversion Hex as [| ? ? Hx _]; subst.
    cbn [enumerate_from for_loop lz78_parse]. unfold loop_body.
    pose proof (lookup_agrees item others others_foreign s phrases buffer x
                  Hsim Hx) as Hlook.
    rewrite Hlook.
    destruct (existsb (phrase_eqb (buffer ++ [x])) phrases) eqn:Hfound.
    + assert ((idx =? idx + len [x] - 1) = true) as ->
        by (apply Z.eqb_eq; unfold len; cbn; lia).
      cbn [table fst snd].
      rewrite setitem_fresh
        by (eapply simulates_fresh_eoi; [exact others_foreign | exact Hsim]).
      rewrite map_app. destruct Hsim as (Hk & _). rewrite Hk.
      destruct buffer; cbn [app eoi_keys map fst]; now rewrite <- app_assoc.
    + cbn [table fst snd eoi_keys].
      rewrite setitem_fresh by (rewrite Hlook; reflexivity).
      destruct Hsim as (Hk & Hb & _). rewrite map_app, Hk, Hb.
      unfold phrase_keys. rewrite map_app, app_nil_r, <- app_assoc.
      reflexivity.
  - inversion Hex as [| ? ? Hx Hex']; subst.
    rewrite for_loop_cons.
    change (lz78_parse phrases buffer (x :: y :: rest)) with
      (if existsb (phrase_eqb (buffer ++ [x])) phrases
       then lz78_parse phrases (buffer ++ [x]) (y :: rest)
       else lz78_parse (phrases ++ [buffer ++ [x]]) [] (y :: rest)).
    unfold loop_body.
    pose proof (lookup_agrees item others others_foreign s phrases buffer x
                  Hsim Hx) as Hlook.
    rewrite Hlook.
    assert (Hidx' : idx + 1 + len (y :: rest) = idx + len (x :: y :: rest)).
    { unfold len. cbn [List.length]. lia. }
    destruct (existsb (phrase_eqb (buffer ++ [x])) phrases) eqn:Hfound.
    + assert ((idx =? idx + len (x :: y :: rest) - 1) = false) as ->
        by (apply Z.eqb_neq; unfold len; cbn [List.length]; lia).
      apply IH; [| exact Hex' | exact Hidx'].
      destruct Hsim as (Hk & Hb & Hph & Hbuf). repeat split.
      * exact Hk.
      * cbn [current_seq]. now rewrite Hb.
      * exact Hph.
      * apply Forall_app. split; [exact Hbuf | now constructor].
    + apply IH; [| exact Hex' | exact Hidx'].
      destruct Hsim as (Hk & Hb & Hph & Hbuf).
      rewrite Hb.
      change (np.tobytes (np.append (np.mk_ndarray np.float64 buffer) item x))
        with (enc (buffer ++ [x])).
      apply simulates_insert; [now repeat split | exact Hx |].
      rewrite Hb in Hlook. exact Hlook.
Qed.

End Keys.

Lemma seed_foreign : foreign_keys [KBytes []].
Proof.
  split; [intros [H | []]; discriminate |].
  intros p Hp _ [H | []]. injection H as H. now apply (enc_nonempty p).
Qed.

Lemma seed_and_int64_foreign (s0 : Z) :
  s0 <> 0 -> float_exact s0 ->
  foreign_keys [KBytes []; KBytes (np.item_bytes np.int64 s0)].
Proof.
  intros Hs0 Hex. split; [intros [H | [H | []]]; discriminate |].
  intros p Hp Hpex [H | [H | []]]; injection H as H.
  - now apply (enc_nonempty p).
  - now apply (int64_key_not_float64 s0 p).
Qed.

Lemma final_keys_consistent (sequence : pyseq) (s0 x : Z) (rest : list Z) :
  items sequence = s0 :: x :: rest ->
  np.item_bytes (np.result_type np.int64 (item_dtype sequence)) s0 = enc [s0] ->
  Forall float_exact (s0 :: x :: rest) ->
  map fst (final_table sequence) =
    KBytes [] :: phrase_keys (lz78_phrases (items sequence))
    ++ eoi_keys (snd (lz78_parse [] [] (items sequence))).
Proof.
  intros Hitems Hkey Hex. inversion Hex as [| ? ? Hex0 Hex']; subst.
  unfold final_table, len_seq, lz78_phrases. rewrite Hitems.
  unfold enumerate. rewrite for_loop_cons, first_iteration, Hkey.
  rewrite (for_loop_keys _ _ [KBytes []] seed_foreign)
    with (phrases := [[s0]]) (buffer := []).
  - reflexivity.
  - repeat split; repeat constructor; apply Hex0.
  - exact Hex'.
  - unfold len. cbn [List.length]. lia.
Qed.

(** X4. For a sequence of at least two exact integers (within 2^53 in
    absolute value) that starts with 0, the keys of the final table are, in
    order: the seed, the float64 bytes of each phrase of the LZ78 parse of
    the sequence, and the end-of-input key when the sequence ends inside an
    already-seen phrase. *)
Theorem final_keys_leading_zero (sequence : pyseq) (x : Z) (rest : list Z) :
  items sequence = 0 :: x :: rest ->
  Forall float_exact (x :: rest) ->
  map fst (final_table sequence) =
    KBytes [] :: phrase_keys (lz78_phrases (items sequence))
    ++ eoi_keys (snd (lz78_parse [] [] (items sequence))).
Proof.
  intros Hitems Hex. apply (final_keys_consistent sequence 0 x rest Hitems).
  - destruct (result_type_int64 (item_dtype sequence)) as [-> | ->];
      reflexivity.
  - constructor; [unfold float_exact; lia | exact Hex].
Qed.

Lemma final_keys_leading_zero_witness :
  map fst (final_table alternating) =
    KBytes [] :: phrase_keys (lz78_phrases (items alternating))
    ++ eoi_keys (snd (lz78_parse [] [] (items alternating))).
Proof.
  apply (final_keys_leading_zero alternating 1 [0; 1; 0; 1; 0; 1; 0; 1]).
  - reflexivity.
  - repeat constructor; vm_compute; discriminate.
Defined.

(** X5. For a sequence of at least two exact integers whose items reach the
    buffer as integers (a list of Python ints, an array of signed integers)
    and that starts with a non-zero symbol, the keys of the final table are:
    the seed, the int64 bytes of the first symbol, then the float64 bytes of
    each phrase of the LZ78 parse of the rest of the sequence, parsed from an
    empty table, and the end-of-input key when that parse ends inside a
    phrase.  The first symbol is never matched again. *)
Theorem final_keys_leading_nonzero (sequence : pyseq) (s0 x : Z)
  (rest : list Z) :
  items sequence = s0 :: x :: rest ->
  np.result_type np.int64 (item_dtype sequence) = np.int64 ->
  s0 <> 0 ->
  Forall float_exact (s0 :: x :: rest) ->
  map fst (final_table sequence) =
    KBytes [] :: KBytes (np.item_bytes np.int64 s0)
    :: phrase_keys (lz78_phrases (x :: rest))
    ++ eoi_keys (snd (lz78_parse [] [] (x :: rest))).
Proof.
  intros Hitems Hdt Hs0 Hex. inversion Hex as [| ? ? Hex0 Hex']; subst.
  unfold final_table, len_seq, lz78_phrases. rewrite Hitems.
  unfold enumerate. rewrite for_loop_cons, first_iteration, Hdt.
  rewrite (for_loop_keys _ _
             [KBytes []; KBytes (np.item_bytes np.int64 s0)]
             (seed_and_int64_foreign s0 Hs0 Hex0))
    with (phrases := []) (buffer := []).
  - reflexivity.
  - repeat split; constructor.
  - exact Hex'.
  - unfold len. cbn [List.length]. lia.
Qed.

Lemma final_keys_leading_nonzero_witness :
  map fst (final_table (PyList [1; 1; 0; 1; 0])) =
    KBytes [] :: KBytes (np.item_bytes np.int64 1)
    :: phrase_keys (lz78_phrases [1; 0; 1; 0])
    ++ eoi_keys (snd (lz78_parse [] [] [1; 0; 1; 0])).
Proof.
  apply (final_keys_leading_nonzero (PyList [1; 1; 0; 1; 0]) 1 1 [0; 1; 0]).
  - reflexivity.
  - reflexivity.
  - discriminate.
  - repeat constructor; vm_compute; discriminate.
Defined.

(** X6. For an array of floats holding at least two exact integers, handed
    over with the input check overridden, the buffer is a float64 array from
    the first phrase on, and the keys of the final table are the seed, the
    float64 bytes of each phrase of the LZ78 parse of the whole sequence,
    and the end-of-input key when the sequence ends inside a phrase. *)
Theorem final_keys_float_items (sequence : pyseq) (s0 x : Z) (rest : list Z) :
  items sequence = s0 :: x :: rest ->
  np.result_type np.int64 (item_dtype sequence) = np.float64 ->
  Forall float_exact (s0 :: x :: rest) ->
  map fst (final_table sequence) =
    KBytes [] :: phrase_keys (lz78_phrases (items sequence))
    ++ eoi_keys (snd (lz78_parse [] [] (items sequence))).
Proof.
  intros Hitems Hdt Hex.
  apply (final_keys_consistent sequence s0 x rest Hitems); [| exact Hex].
  rewrite Hdt. reflexivity.
Qed.

Lemma final_keys_float_items_witness :
  map fst (final_table (PyArray (np.mk_ndarray np.float64 [1; 1; 0; 1; 0]))) =
    KBytes []
    :: phrase_keys
         (lz78_phrases
            (items (PyArray (np.mk_ndarray np.float64 [1; 1; 0; 1; 0]))))
    ++ eoi_keys
         (snd (lz78_parse [] []
                 (items (PyArray (np.mk_ndarray np.float64 [1; 1; 0; 1; 0]))))).
Proof.
  apply (final_keys_float_items
           (PyArray (np.mk_ndarray np.float64 [1; 1; 0; 1; 0])) 1 1 [0; 1; 0]).
  - reflexivity.
  - reflexivity.
  - repeat constructor; vm_compute; discriminate.
Defined.

(** ** The value of the estimate *)

Section EstimateValue.

Local Open Scope R_scope.

Lemma alphabet_size_le_len (l : list Z) : (alphabet_size l <= len l)%Z.
Proof.
  unfold alphabet_size, alphabet, len. apply Nat2Z.inj_le.
  apply NoDup_incl_length; [apply NoDup_nodup |].
  intros x Hx. now apply nodup_In in Hx.
Qed.



End EstimateValue.





(** X9. An empty sequence handed over with the input check overridden is not
    rejected and does not give 0: [unique] finds no symbol, [log2(0)] is
    minus infinity, and [erLZ78] returns minus infinity. *)
Theorem erLZ78_empty_overridden (g : globals) (sequence : pyseq) :
  len_seq sequence = 0 ->
  erLZ78 g sequence true = Return (PyFloat (np.Inf true)).
Proof.
  intros Hn. unfold erLZ78. cbn [input_handling negb bind].
  assert (Hitems : items sequence = []).
  { unfold len_seq, len in Hn. destruct (items sequence); [reflexivity |].
    cbn in Hn. lia. }
  unfold estimate, final_table. rewrite Hn, items_array, Hitems.
  reflexivity.
Qed.

Lemma erLZ78_empty_overridden_witness :
  erLZ78 module_globals (PyList []) true = Return (PyFloat (np.Inf true)).
Proof.
  apply (erLZ78_empty_overridden module_globals (PyList [])). reflexivity.
Defined.

(** ** Phrase keys and the range of exact doubles *)

(** X10. Phrase keys do not collide for symbols within 2^53 in absolute
    value: two float64 buffers of such integers with the same bytes hold the
    same items. *)
Theorem float64_keys_collision_free (a b : np.ndarray) :
  np.dtype a = np.float64 -> np.dtype b = np.float64 ->
  Forall float_exact (np.data a) -> Forall float_exact (np.data b) ->
  np.tobytes a = np.tobytes b -> np.data a = np.data b.
Proof.
  destruct a as [da xa], b as [db xb]. cbn [np.dtype np.data].
  intros -> -> Ha Hb E. now apply enc_inj.
Qed.

Lemma float64_keys_collision_free_witness :
  np.data (np.mk_ndarray np.float64 [1; 0]) =
    np.data (np.mk_ndarray np.float64 [1; 0]).
Proof.
  apply (float64_keys_collision_free (np.mk_ndarray np.float64 [1; 0])
           (np.mk_ndarray np.float64 [1; 0])).
  - reflexivity.
  - reflexivity.
  - repeat constructor; vm_compute; discriminate.
  - repeat constructor; vm_compute; discriminate.
  - reflexivity.
Defined.

Lemma log2_53 (z : Z) : 2 ^ 53 <= z < 2 ^ 54 -> Z.log2 z = 53.
Proof. intros H. apply Z.log2_unique; [lia | exact H]. Qed.

(** X11. Beyond 2^53 they do collide: for every multiple of 4 in
    [2^53, 2^54), the symbol z and the symbol z + 1 have the same float64
    bytes, so a buffer holding one is found under the key of the other. *)
Theorem float64_keys_collide_above_2_53 (j : Z) :
  2 ^ 51 <= j < 2 ^ 52 ->
  np.tobytes (np.mk_ndarray np.float64 [4 * j + 1]) =
    np.tobytes (np.mk_ndarray np.float64 [4 * j]) /\
  contains
    (KBytes (np.tobytes (np.append (np.array_empty np.float64) np.int64
                           (4 * j + 1))))
    [(KBytes (np.tobytes (np.mk_ndarray np.float64 [4 * j])), 1)] = true.
Proof.
  intros Hj.
  assert (Hbits : np.float64_bits (4 * j + 1) = np.float64_bits (4 * j)).
  { unfold np.float64_bits.
    destruct (Z.eqb_spec (4 * j + 1) 0); [lia |].
    destruct (Z.eqb_spec (4 * j) 0); [lia |].
    destruct (Z.ltb_spec (4 * j + 1) 0); [lia |].
    destruct (Z.ltb_spec (4 * j) 0); [lia |].
    rewrite !Z.abs_eq by lia.
    rewrite !log2_53 by lia.
    change (53 <=? 52) with false. cbv iota.
    unfold np.round_half_even. change (53 - 52) with 1.
    change (2 ^ 1) with 2. change (2 ^ (1 - 1)) with 1.
    assert (Hq0 : 4 * j / 2 = 2 * j)
      by (symmetry; apply Z.div_unique with 0; lia).
    assert (Hr0 : (4 * j) mod 2 = 0)
      by (symmetry; apply Z.mod_unique with (2 * j); lia).
    assert (Hq1 : (4 * j + 1) / 2 = 2 * j)
      by (symmetry; apply Z.div_unique with 1; lia).
    assert (Hr1 : (4 * j + 1) mod 2 = 1)
      by (symmetry; apply Z.mod_unique with (2 * j); lia).
    rewrite Hq0, Hr0, Hq1, Hr1.
    change (0 <? 1) with true. change (1 <? 1) with false. cbv iota.
    replace (Z.even (2 * j)) with true; [reflexivity |].
    symmetry. rewrite Z.even_mul. reflexivity. }
  assert (Hkey : np.tobytes (np.mk_ndarray np.float64 [4 * j + 1]) =
                 np.tobytes (np.mk_ndarray np.float64 [4 * j])).
  { unfold np.tobytes. cbn [np.dtype np.data flat_map].
    now rewrite !item_bytes_float64, Hbits. }
  split; [exact Hkey |].
  change (np.append (np.array_empty np.float64) np.int64 (4 * j + 1))
    with (np.mk_ndarray np.float64 [4 * j + 1]).
  rewrite Hkey. unfold contains. cbn [existsb fst orb].
  now destruct (key_eqb_spec
                  (KBytes (np.tobytes (np.mk_ndarray np.float64 [4 * j])))
                  (KBytes (np.tobytes (np.mk_ndarray np.float64 [4 * j])))).
Qed.

Lemma float64_keys_collide_above_2_53_witness :
  np.tobytes (np.mk_ndarray np.float64 [4 * 2 ^ 51 + 1]) =
    np.tobytes (np.mk_ndarray np.float64 [4 * 2 ^ 51]) /\
  contains
    (KBytes (np.tobytes (np.append (np.array_empty np.float64) np.int64
                           (4 * 2 ^ 51 + 1))))
    [(KBytes (np.tobytes (np.mk_ndarray np.float64 [4 * 2 ^ 51])), 1)] = true.
Proof.
  apply (float64_keys_collide_above_2_53 (2 ^ 51)). lia.
Defined.

(** ** The entropy of a coin toss *)

Section CoinEntropy.

Local Open Scope R_scope.

Lemma coin_ent_inside (x : R) :
  0 < x < 1 -> coin_ent x = PyFloat (np.Finite (binary_entropy x)).
Proof.
  intros [H0 H1]. unfold coin_ent, log2_of_float.
  destruct (Req_dec_T x 0); [lra |].
  destruct (Req_dec_T x 1); [lra |].
  destruct (Rlt_dec x 0); [lra |].
  destruct (Req_dec_T (1 - x) 0); [lra |].
  destruct (Rlt_dec (1 - x) 0); [lra |].
  reflexivity.
Qed.

Lemma binary_entropy_pos (x : R) : 0 < x < 1 -> 0 < binary_entropy x.
Proof.
  intros [H0 H1]. unfold binary_entropy.
  pose proof ln2_pos as HL.
  assert (Hinv : 0 < / ln 2) by now apply Rinv_0_lt_compat.
  assert (Hx : ln x < 0) by (rewrite <- ln_1; apply ln_increasing; lra).
  assert (Hy : ln (1 - x) < 0) by (rewrite <- ln_1; apply ln_increasing; lra).
  assert (Hx' : ln x / ln 2 < 0).
  { unfold Rdiv. rewrite <- (Rmult_0_l (/ ln 2)).
    now apply Rmult_lt_compat_r. }
  assert (Hy' : ln (1 - x) / ln 2 < 0).
  { unfold Rdiv. rewrite <- (Rmult_0_l (/ ln 2)).
    now apply Rmult_lt_compat_r. }
  nra.
Qed.

End CoinEntropy.

(** X12. For a probability strictly between 0 and 1, [coin_ent] returns a
    finite float that is strictly positive: both products of line 105 are
    positive, each the product of two negative factors. *)
Theorem coin_ent_range (x : R) :
  (0 < x < 1)%R ->
  exists h, coin_ent x = PyFloat (np.Finite h) /\ (0 < h)%R.
Proof.
  intros Hx. exists (binary_entropy x).
  split; [now apply coin_ent_inside | now apply binary_entropy_pos].
Qed.

Lemma coin_ent_range_witness :
  exists h, coin_ent (/ 4) = PyFloat (np.Finite h) /\ (0 < h)%R.
Proof. apply (coin_ent_range (/ 4)). lra. Defined.

(** X14. At the two certain coins [coin_ent] returns the int 0 without
    calling [log2]; outside [0, 1] one of the two logarithms has a negative
    argument and the result is not-a-number. *)
Theorem coin_ent_edges :
  coin_ent 0 = PyInt 0 /\ coin_ent 1 = PyInt 0 /\
  forall x, (x < 0 \/ 1 < x)%R -> coin_ent x = PyFloat np.NaN.
Proof.
  split; [| split].
  - unfold coin_ent. destruct (Req_dec_T 0 0); [reflexivity | lra].
  - unfold coin_ent. destruct (Req_dec_T 1 0); [lra |].
    destruct (Req_dec_T 1 1); [reflexivity | lra].
  - intros x Hx. unfold coin_ent, log2_of_float.
    destruct (Req_dec_T x 0); [lra |].
    destruct (Req_dec_T x 1); [lra |].
    destruct (Req_dec_T (1 - x) 0); [lra |].
    destruct (Rlt_dec x 0), (Rlt_dec (1 - x) 0); cbn; try reflexivity; lra.
Qed.

(** ** The rows [test] feeds to [erLZ78] *)

Section Battery.

Lemma battery_row_length (p : Z) (resolution : R) (tst : list R) :
  List.length (battery_row p resolution tst) = List.length tst.
Proof. unfold battery_row. apply length_map. Qed.

Lemma battery_row_binary (p : Z) (resolution : R) (tst : list R) :
  Forall (fun b => b = 0 \/ b = 1) (battery_row p resolution tst).
Proof.
  unfold battery_row. apply Forall_forall. intros b Hb.
  apply in_map_iff in Hb as [n [<- _]].
  destruct (Rlt_dec n (IZR p * resolution)); [now right | now left].
Qed.

Lemma battery_row_zeros (p : Z) (resolution : R) (tst : list R) :
  Forall (fun n => (0 <= n)%R) tst -> (IZR p * resolution <= 0)%R ->
  battery_row p resolution tst = repeat 0 (List.length tst).
Proof.
  intros Hall Ht. unfold battery_row.
  induction Hall as [| n tst Hn Hall IH]; [reflexivity |].
  cbn [map List.length repeat]. rewrite IH.
  destruct (Rlt_dec n (IZR p * resolution)); [lra | reflexivity].
Qed.

Lemma battery_row_ones (p : Z) (resolution : R) (tst : list R) :
  Forall (fun n => (n < 1)%R) tst -> (1 <= IZR p * resolution)%R ->
  battery_row p resolution tst = repeat 1 (List.length tst).
Proof.
  intros Hall Ht. unfold battery_row.
  induction Hall as [| n tst Hn Hall IH]; [reflexivity |].
  cbn [map List.length repeat]. rewrite IH.
  destruct (Rlt_dec n (IZR p * resolution)); [reflexivity | lra].
Qed.

Lemma binary_alphabet_size (l : list Z) :
  Forall (fun b => b = 0 \/ b = 1) l -> alphabet_size l <= 2.
Proof.
  intros Hl. unfold alphabet_size, alphabet, len.
  change 2 with (Z.of_nat (List.length [0; 1])). apply Nat2Z.inj_le.
  apply NoDup_incl_length; [apply NoDup_nodup |].
  intros b Hb. apply nodup_In in Hb. rewrite Forall_forall in Hl.
  destruct (Hl b Hb) as [-> | ->]; cbn; auto.
Qed.

Lemma enumerate_from_nth {A : Type} (l : list A) (start : Z) (p : nat)
  (x : A) :
  nth_error l p = Some x ->
  nth_error (enumerate_from start l) p = Some (start + Z.of_nat p, x).
Proof.
  revert start p. induction l as [| y l IH]; intros start [| p] H;
    try discriminate.
  - cbn in *. injection H as ->. do 2 f_equal. lia.
  - cbn [enumerate_from nth_error] in *. rewrite (IH (start + 1) p H).
    do 2 f_equal. lia.
Qed.

End Battery.

(** X15. In the list of entropy rates that [test] plots, a row of uniform
    draws from [0, 1) that is not empty gives the int 0 whenever its
    threshold [p * resolution] is at most 0 (the row is all zeros) or at
    least 1 (all ones): the estimate vanishes at both certain coins, as
    [coin_ent] does. *)
Theorem entropy_rates_certain_coin (g : globals) (resolution : R)
  (battery : list (list R)) (p : nat) (tst : list R) :
  nth_error battery p = Some tst ->
  tst <> [] ->
  Forall (fun n => (0 <= n)%R /\ (n < 1)%R) tst ->
  (IZR (Z.of_nat p) * resolution <= 0 \/ 1 <= IZR (Z.of_nat p) * resolution)%R ->
  nth_error (entropy_rates g resolution battery) p = Some (Return (PyInt 0)).
Proof.
  intros Hnth Hne Hall Ht. unfold entropy_rates, enumerate.
  rewrite nth_error_map, (enumerate_from_nth battery 0 p tst Hnth).
  cbn [option_map fst snd Z.add]. f_equal.
  rewrite erLZ78_validated by now left. f_equal.
  assert (Hlen : exists k, List.length tst = S k).
  { destruct tst; [congruence | now eexists]. }
  destruct Hlen as [k Hk].
  destruct Ht as [Ht | Ht].
  - rewrite battery_row_zeros; [| | exact Ht].
    + rewrite Hk. apply estimate_one_symbol. cbn [items].
      unfold alphabet_size. now rewrite alphabet_repeat.
    + eapply Forall_impl; [| exact Hall]. now intros n [H _].
  - rewrite battery_row_ones; [| | exact Ht].
    + rewrite Hk. apply estimate_one_symbol. cbn [items].
      unfold alphabet_size. now rewrite alphabet_repeat.
    + eapply Forall_impl; [| exact Hall]. now intros n [_ H].
Qed.

Lemma entropy_rates_certain_coin_witness :
  nth_error (entropy_rates module_globals (/ 2)
               [[(/ 4)%R; (/ 2)%R]; [(/ 4)%R; (/ 2)%R]; [(/ 4)%R; (/ 2)%R]]) 2
  = Some (Return (PyInt 0)).
Proof.
  apply (entropy_rates_certain_coin module_globals (/ 2)
           [[(/ 4)%R; (/ 2)%R]; [(/ 4)%R; (/ 2)%R]; [(/ 4)%R; (/ 2)%R]] 2
           [(/ 4)%R; (/ 2)%R]).
  - reflexivity.
  - discriminate.
  - repeat constructor; lra.
  - right. cbn. lra.
Defined.

(** X16. Every row [test] feeds to [erLZ78] holds only the symbols 0 and 1,
    so for a row that is not empty the call returns either the int 0 (one
    symbol only) or c * (log2 c + 1) / n: the alphabet description length of
    a coin is one bit. *)
Theorem battery_row_estimate (g : globals) (p : Z) (resolution : R)
  (tst : list R) :
  tst <> [] ->
  erLZ78 g (PyList (battery_row p resolution tst)) true = Return (PyInt 0) \/
  erLZ78 g (PyList (battery_row p resolution tst)) true =
    Return (PyFloat (np.Finite
      (IZR (len (final_table (PyList (battery_row p resolution tst))))
       * (ln (IZR (len (final_table (PyList (battery_row p resolution tst)))))
            / ln 2 + 1)
       / IZR (len tst))%R)).
Proof.
  intros Hne. rewrite erLZ78_validated by now left.
  set (row := battery_row p resolution tst).
  assert (Hrow : row <> []).
  { intros E. apply (f_equal (@List.length Z)) in E.
    unfold row in E. rewrite battery_row_length in E.
    destruct tst; [congruence | discriminate]. }
  pose proof (alphabet_size_pos row Hrow) as Hlo.
  pose proof (binary_alphabet_size row (battery_row_binary p resolution tst))
    as Hhi.
  destruct (Z.eq_dec (alphabet_size row) 1) as [H1 | H1].
  - left. now rewrite estimate_one_symbol.
  - right. assert (H2 : alphabet_size row = 2) by lia.
    pose proof (alphabet_size_le_len row) as Hlen.
    rewrite estimate_formula; cbn [items]; fold row;
      [| unfold len_seq; cbn [items]; lia | lia].
    unfold formula. rewrite H2, adl_log2_up by lia.
    change (Z.log2_up 2) with 1.
    unfold len_seq, len. cbn [items]. unfold row at 3.
    now rewrite battery_row_length.
Qed.

Lemma battery_row_estimate_witness :
  erLZ78 module_globals (PyList (battery_row 1 (/ 2) [(/ 4)%R; (/ 2)%R])) true
    = Return (PyInt 0) \/
  erLZ78 module_globals (PyList (battery_row 1 (/ 2) [(/ 4)%R; (/ 2)%R])) true =
    Return (PyFloat (np.Finite
      (IZR (len (final_table
                   (PyList (battery_row 1 (/ 2) [(/ 4)%R; (/ 2)%R]))))
       * (ln (IZR (len (final_table
                          (PyList (battery_row 1 (/ 2) [(/ 4)%R; (/ 2)%R])))))
            / ln 2 + 1)
       / IZR (len [(/ 4)%R; (/ 2)%R]))%R)).
Proof.
  apply (battery_row_estimate module_globals 1 (/ 2) [(/ 4)%R; (/ 2)%R]).
  discriminate.
Defined.

(** ** The estimate against the LZ78 phrase count *)

(** X17. For a sequence of exact integers that starts with 0, has at least
    two distinct symbols and passes or skips the input check, [erLZ78]
    returns the Lempel-Ziv estimate built on the phrase count of the LZ78
    parse of the sequence: k + 1 entries for k phrases, one more when the
    sequence ends inside an already-seen phrase. *)
Theorem erLZ78_leading_zero (g : globals) (sequence : pyseq) (override : bool)
  (x : Z) (rest : list Z) :
  items sequence = 0 :: x :: rest ->
  Forall float_exact (x :: rest) ->
  2 <= alphabet_size (items sequence) ->
  validated g sequence override ->
  erLZ78 g sequence override =
    Return (PyFloat (np.Finite
      (formula (expected_phrase_count (items sequence))
               (alphabet_size (items sequence)) (len_seq sequence)))).
Proof.
  intros Hitems Hex Ha Hv.
  rewrite (erLZ78_validated g sequence override Hv).
  rewrite estimate_formula; [| | exact Ha].
  - now rewrite (final_table_leading_zero sequence x rest Hitems Hex).
  - unfold len_seq, len. rewrite Hitems. cbn [List.length]. lia.
Qed.

Lemma erLZ78_leading_zero_witness :
  erLZ78 module_globals alternating false =
    Return (PyFloat (np.Finite
      (formula (expected_phrase_count (items alternating))
               (alphabet_size (items alternating)) (len_seq alternating)))).
Proof.
  apply (erLZ78_leading_zero module_globals alternating false 1
           [0; 1; 0; 1; 0; 1; 0; 1]).
  - reflexivity.
  - repeat constructor; vm_compute; discriminate.
  - vm_compute. discriminate.
  - right. split; [reflexivity | vm_compute; discriminate].
Defined.

(** X18. For a sequence of exact integer items (a list of Python ints, an
    array of signed integers) that starts with a non-zero symbol, has at
    least two distinct symbols and passes or skips the input check,
    [erLZ78] returns the estimate built on one entry for the first symbol
    plus the phrase count of the rest of the sequence parsed afresh. *)
Theorem erLZ78_leading_nonzero (g : globals) (sequence : pyseq)
  (override : bool) (s0 x : Z) (rest : list Z) :
  items sequence = s0 :: x :: rest ->
  np.result_type np.int64 (item_dtype sequence) = np.int64 ->
  s0 <> 0 ->
  Forall float_exact (s0 :: x :: rest) ->
  2 <= alphabet_size (items sequence) ->
  validated g sequence override ->
  erLZ78 g sequence override =
    Return (PyFloat (np.Finite
      (formula (1 + expected_phrase_count (x :: rest))
               (alphabet_size (items sequence)) (len_seq sequence)))).
Proof.
  intros Hitems Hdt Hs0 Hex Ha Hv.
  rewrite (erLZ78_validated g sequence override Hv).
  rewrite estimate_formula; [| | exact Ha].
  - now rewrite (final_table_leading_nonzero sequence s0 x rest Hitems Hdt
                   Hs0 Hex).
  - unfold len_seq, len. rewrite Hitems. cbn [List.length]. lia.
Qed.

Lemma erLZ78_leading_nonzero_witness :
  erLZ78 module_globals (PyList [1; 1; 0; 1; 0]) false =
    Return (PyFloat (np.Finite
      (formula (1 + expected_phrase_count [1; 0; 1; 0])
               (alphabet_size (items (PyList [1; 1; 0; 1; 0])))
               (len_seq (PyList [1; 1; 0; 1; 0]))))).
Proof.
  apply (erLZ78_leading_nonzero module_globals (PyList [1; 1; 0; 1; 0]) false
           1 1 [0; 1; 0]).
  - reflexivity.
  - reflexivity.
  - discriminate.
  - repeat constructor; vm_compute; discriminate.
  - vm_compute. discriminate.
  - right. split; [reflexivity | vm_compute; discriminate].
Defined.
